(** * Two associative containers: the trie of hash tables and the
      two-level table with linear probing

    Shallow embedding of [src/infinite_hash_table.py] (class
    [InfiniteHashTable]) and [src/double_key_table.py] (class
    [DoubleKeyTable]), with the properties of the specification stated
    and settled against them.

    Conventions of the embedding.
    - A Python [str] key is a [string]; [ord] is [nat_of_ascii].
    - An [ArrayR] of length [n] is a [list] of [n] slots; [None] is the
      empty slot.
    - A method that mutates [self] takes the object and returns the
      mutated object.
    - Exceptions are the constructors of [exn]; a computation yields a
      [result].  Recursion and [while] loops that Python does not bound
      take a [fuel] (the depth Python allows); [OutOfFuel] is the
      outcome of a run that needs more. *)

From stdpp Require Import base list strings.
From Stdlib Require Import ZArith Ascii.

Open Scope string_scope.
Open Scope list_scope.
Open Scope nat_scope.

(** ** Exceptions and results *)

Inductive exn :=
| KeyError | FullError | IndexError | ZeroDivisionError
| TypeError | ValueError | UnboundLocalError.

Inductive result (A : Type) :=
| Ok (a : A)
| Raise (e : exn)
| OutOfFuel.
Arguments Ok {A} a.
Arguments Raise {A} e.
Arguments OutOfFuel {A}.

Definition bind {A B} (m : result A) (k : A -> result B) : result B :=
  match m with
  | Ok a => k a
  | Raise e => Raise e
  | OutOfFuel => OutOfFuel
  end.

#[global] Instance result_ret : MRet result := @Ok.
#[global] Instance result_bind : MBind result := fun A B k m => bind m k.

(** [ArrayR(n)]: [n] empty slots. *)
Definition ArrayR {A} (n : nat) : list (option A) := replicate n None.

(** [key[:n]] *)
Definition slice (key : string) (n : nat) : string := String.substring 0 n key.

(** [ord(key[i])], for [i < len(key)] *)
Definition ord_at (key : string) (i : nat) : nat :=
  match String.get i key with
  | Some c => nat_of_ascii c
  | None => 0
  end.

(** ** The trie of hash tables ([src/infinite_hash_table.py]) *)

Module InfiniteHashTable.
Section WithValue.
Context {V : Type}.

(** A slot of a node holds [None] or a tuple [(key, x)], where [x] is a
    stored value or a nested table ([isinstance(x, InfiniteHashTable)]). *)
Inductive entry :=
| Val (v : V)
| Tab (t : IHT)
with IHT :=
| mkIHT (array : list (option (string * entry))) (count : Z) (level : nat).

Definition array (t : IHT) := match t with mkIHT a _ _ => a end.
Definition count (t : IHT) := match t with mkIHT _ c _ => c end.
Definition level (t : IHT) := match t with mkIHT _ _ l => l end.

Definition TABLE_SIZE : nat := 27.

(** [__init__(self, level)] *)
Definition init (lvl : nat) : IHT := mkIHT (ArrayR TABLE_SIZE) 0 lvl.

(** [hash(self, key)] *)
Definition hash (self : IHT) (key : string) : nat :=
  if level self <? String.length key
  then ord_at key (level self) mod (TABLE_SIZE - 1)
  else TABLE_SIZE - 1.

(** [get_item_aux(self, hash_table, key, level)].  The list
    [self.location_lst] of the table the method was called on is
    threaded through: the function returns its final contents, also when
    it raises. *)
Fixpoint get_item_aux (fuel : nat) (location_lst : list nat)
    (hash_table : IHT) (key : string) (lvl : nat) : list nat * result V :=
  match fuel with
  | 0 => (location_lst, OutOfFuel)
  | S fuel =>
    let position := hash hash_table key in
    match array hash_table !! position with
    | None => (location_lst, Raise IndexError)
    | Some None => (location_lst, Raise KeyError)
    | Some (Some (k, x)) =>
      if String.eqb k key then
        let location_lst := location_lst ++ [position] in
        match x with
        | Tab t => get_item_aux fuel location_lst t key (lvl + 1)
        | Val v => (location_lst, Ok v)
        end
      else if String.eqb k (slice key (lvl + 1)) then
        match x with
        | Tab t => get_item_aux fuel (location_lst ++ [position]) t key (lvl + 1)
        | Val _ => (location_lst, Raise KeyError)
        end
      else (location_lst, Raise KeyError)
    end
  end.

(** [__getitem__]: [self.location_lst] is only read by [get_location],
    which resets it first, so its contents are not kept here. *)
Definition __getitem__ (fuel : nat) (self : IHT) (key : string) : result V :=
  snd (get_item_aux fuel [] self key 0).

(** [get_location] *)
Definition get_location (fuel : nat) (self : IHT) (key : string)
  : result (list nat) :=
  match get_item_aux fuel [] self key 0 with
  | (location_list, Ok _) => Ok location_list
  | (_, Raise e) => Raise e
  | (_, OutOfFuel) => OutOfFuel
  end.

(** [__contains__]: only [KeyError] is caught. *)
Definition __contains__ (fuel : nat) (self : IHT) (key : string) : result bool :=
  match __getitem__ fuel self key with
  | Ok _ => Ok true
  | Raise KeyError => Ok false
  | Raise e => Raise e
  | OutOfFuel => OutOfFuel
  end.

Definition with_slot (t : IHT) (i : nat) (s : option (string * entry)) : IHT :=
  mkIHT (<[i := s]> (array t)) (count t) (level t).
Definition add_count (t : IHT) (d : Z) : IHT :=
  mkIHT (array t) (count t + d) (level t).

(** [set_item_aux(self, hash_table, key, value, level)]; the mutated
    [hash_table] is returned. *)
Fixpoint set_item_aux (fuel : nat) (hash_table : IHT) (key : string)
    (value : V) (lvl : nat) : result IHT :=
  match fuel with
  | 0 => OutOfFuel
  | S fuel =>
    let position := hash hash_table key in
    match array hash_table !! position with
    | None => Raise IndexError
    | Some None =>
      Ok (with_slot (add_count hash_table 1) position (Some (key, Val value)))
    | Some (Some (k, x)) =>
      if String.eqb k key then
        Ok (with_slot hash_table position (Some (key, Val value)))
      else
        match x with
        | Val v0 =>
          (* first_item = (k, v0) *)
          child ← set_item_aux fuel (init (lvl + 1)) k v0 (lvl + 1);
          child ← set_item_aux fuel child key value (lvl + 1);
          Ok (with_slot (add_count hash_table 1) position
                (Some (slice k (lvl + 1), Tab child)))
        | Tab t =>
          t' ← set_item_aux fuel t key value (lvl + 1);
          Ok (with_slot (add_count hash_table 1) position (Some (k, Tab t')))
        end
    end
  end.

(** [__setitem__] *)
Definition __setitem__ (fuel : nat) (self : IHT) (key : string) (value : V)
  : result IHT :=
  set_item_aux fuel self key value 0.

(** The first non-empty slot, as found by the scan of lines 204-207. *)
Definition first_item (arr : list (option (string * entry)))
  : option (string * entry) :=
  head (omap id arr).

(** [delete_item_aux(self, hash_table, location_list, locate_index,
    path_distance, list_len)].  [is_self] is the outcome of the identity
    test [hash_table == self]: the method starts on [self] and descends
    into child nodes, which are other objects.  The result is the mutated
    [hash_table] and the returned value ([None] or the one remaining
    item). *)
Fixpoint delete_item_aux (fuel : nat) (is_self : bool) (hash_table : IHT)
    (location_list : list nat) (locate_index : nat) (path_distance : Z)
    (list_len : nat) : result (IHT * option (string * entry)) :=
  match fuel with
  | 0 => OutOfFuel
  | S fuel =>
    match location_list !! locate_index with
    | None => Raise IndexError
    | Some table_index =>
      match array hash_table !! table_index with
      | None => Raise IndexError
      | Some slot =>
        if (path_distance =? 0)%Z && (Z.of_nat locate_index =? Z.of_nat list_len - 1)%Z
        then
          let hash_table := add_count (with_slot hash_table table_index None) (-1) in
          if (count hash_table <=? 1)%Z then
            match first_item (array hash_table) with
            | Some only_item_from_table =>
              if negb is_self then Ok (hash_table, Some only_item_from_table)
              else Ok (hash_table, None)
            | None =>
              if negb is_self then Raise UnboundLocalError
              else Ok (hash_table, None)
            end
          else Ok (hash_table, None)
        else
          match slot with
          | Some (k, Tab following_hash_table) =>
            '(following_hash_table, only_item_from_table) ←
              delete_item_aux fuel false following_hash_table location_list
                (locate_index + 1) (path_distance - 1) list_len;
            let hash_table :=
              add_count (with_slot hash_table table_index
                           (Some (k, Tab following_hash_table))) (-1) in
            match only_item_from_table with
            | None => Ok (hash_table, None)
            | Some item =>
              if (1 <? count hash_table)%Z || is_self
              then Ok (with_slot hash_table table_index (Some item), None)
              else Ok (with_slot hash_table table_index None, Some item)
            end
          | _ => Raise TypeError
          end
      end
    end
  end.

(** [__delitem__] *)
Definition __delitem__ (fuel : nat) (self : IHT) (key : string) : result IHT :=
  location_list ← get_location fuel self key;
  let list_len := length location_list in
  '(self, _) ← delete_item_aux fuel true self location_list 0
                 (Z.of_nat list_len - 1) list_len;
  Ok self.

(** One pass of the loop [for i in range(97, 123)] of [sort_keys_aux],
    given the recursive call. *)
Definition sort_step (rec : IHT -> list string -> result (list string))
    (self : IHT) (sorted_list : list string) (i : nat)
  : result (list string) :=
  let position := i mod (TABLE_SIZE - 1) in
  match array self !! position with
  | None => Raise IndexError
  | Some None => Ok sorted_list
  | Some (Some (k, Tab t)) => rec t sorted_list
  | Some (Some (k, Val _)) => Ok (sorted_list ++ [k])
  end.

(** [sort_keys_aux(self, sorted_list)]: [sorted_list] is mutated in
    place and returned, so the result is its final contents. *)
Fixpoint sort_keys_aux (fuel : nat) (self : IHT) (sorted_list : list string)
  : result (list string) :=
  match fuel with
  | 0 => OutOfFuel
  | S fuel =>
    match array self !! (TABLE_SIZE - 1) with
    | None => Raise IndexError
    | Some last =>
      let sorted_list :=
        match last with
        | Some (k, _) => if negb (level self =? 0) then sorted_list ++ [k] else sorted_list
        | None => sorted_list
        end in
      foldl (fun acc i => acc ← acc; sort_step (sort_keys_aux fuel) self acc i)
            (Ok sorted_list) (seq 97 26)
    end
  end.

(** [sort_keys(self)] calls [self.sort_keys_aux()] without an argument, so
    [sorted_list] is the default object of the parameter: one list,
    created when the [def] is evaluated and shared by all calls.
    [default_list] is the contents of that object before the call; the
    result is the returned list, which is that same object, hence also
    its contents after the call. *)
Definition sort_keys (fuel : nat) (default_list : list string) (self : IHT)
  : result (list string) :=
  sort_keys_aux fuel self default_list.

(** The terminal [(key, value)] pairs reachable under a node. *)
Fixpoint terminals (t : IHT) : list (string * V) :=
  match t with
  | mkIHT arr _ _ =>
    flat_map (fun s =>
      match s with
      | Some (k, Val v) => [(k, v)]
      | Some (_, Tab t') => terminals t'
      | None => []
      end) arr
  end.

End WithValue.
Arguments entry : clear implicits.
Arguments IHT : clear implicits.
Arguments with_slot : simpl never.
Arguments add_count : simpl never.
Arguments hash : simpl never.
Arguments init : simpl never.
End InfiniteHashTable.

(** ** The two-level table ([src/double_key_table.py]) *)

Module DoubleKeyTable.

(** Modelled from the spec: the fixed-capacity array [ArrayR] of
    [data_structures.referential_array] is not among the sources.  It is
    "a slot array of a declared length, each slot initially empty"; a
    declared length that is not positive is refused. *)
Definition new_array {A} (length : Z) : result (list (option A)) :=
  if (length <=? 0)%Z then Raise ValueError else Ok (ArrayR (Z.to_nat length)).

Definition HASH_BASE : Z := 31.

(** The loop shared by [hash1] and [hash2]. *)
Fixpoint hash_loop (table_size : Z) (key : string) (value a : Z) : result Z :=
  match key with
  | EmptyString => Ok value
  | String char key =>
    if (table_size =? 0)%Z then Raise ZeroDivisionError else
    let value := ((Z.of_nat (nat_of_ascii char) + a * value) mod table_size)%Z in
    if (table_size - 1 =? 0)%Z then Raise ZeroDivisionError else
    let a := ((a * HASH_BASE) mod (table_size - 1))%Z in
    hash_loop table_size key value a
  end.

Definition hash_string (table_size : nat) (key : string) : result nat :=
  value ← hash_loop (Z.of_nat table_size) key 0 31417;
  Ok (Z.to_nat value).

(** One level of linear probing: the [for] loop of [_linear_probe] over
    an array of [(key, _)] slots, with [remaining] iterations to go
    ([i == len(array) - 1] is [remaining = 1]). *)
Fixpoint probe_loop {X} (arr : list (option (string * X))) (key : string)
    (is_insert : bool) (remaining : nat) (position : nat) : result nat :=
  match remaining with
  | 0 => Ok position
  | S remaining =>
    match arr !! position with
    | None => Raise IndexError
    | Some None => if is_insert then Ok position else Raise KeyError
    | Some (Some (k, _)) =>
      if String.eqb k key then Ok position
      else if remaining =? 0 then Raise FullError
      else probe_loop arr key is_insert remaining ((position + 1) mod length arr)
    end
  end.

Section WithValue.
Context {V : Type}.

(** Modelled from the spec: the single-key probe table
    [LinearProbeTable] of [data_structures.hash_table] is not among the
    sources.  It is an open-addressing table with linear probing, built
    from a capacity ladder, with [set], [length] and [is_empty]; its hash
    is the one the composite table injects ([hash2]), its probing is the
    locate of section 4.1, and it grows to the next capacity of its ladder,
    reinserting its pairs through [set], when more than half full and a
    next capacity exists. *)
Record LinearProbeTable := mkLPT {
  lp_sizes : list Z;
  lp_size_index : nat;
  lp_array : list (option (string * V));
  lp_count : Z
}.

Definition lp_init (sizes : list Z) : result LinearProbeTable :=
  match sizes !! 0 with
  | None => Raise IndexError
  | Some n => arr ← new_array n; Ok (mkLPT sizes 0 arr 0)
  end.

Definition is_empty (t : LinearProbeTable) : bool := (lp_count t =? 0)%Z.

Definition lp_with_array (t : LinearProbeTable) arr : LinearProbeTable :=
  mkLPT (lp_sizes t) (lp_size_index t) arr (lp_count t).
Definition lp_add_count (t : LinearProbeTable) (d : Z) : LinearProbeTable :=
  mkLPT (lp_sizes t) (lp_size_index t) (lp_array t) (lp_count t + d).

(** [hash2(self, key, sub_table)] *)
Definition hash2 (key : string) (sub_table : LinearProbeTable) : result nat :=
  hash_string (length (lp_array sub_table)) key.

(** Probe, store, count; without the growth. *)
Definition lp_store (t : LinearProbeTable) (key : string) (data : V)
  : result LinearProbeTable :=
  position ← hash2 key t;
  position ← probe_loop (lp_array t) key true (length (lp_array t)) position;
  match lp_array t !! position with
  | None => Raise IndexError
  | Some slot =>
    let t := if slot is None then lp_add_count t 1 else t in
    Ok (lp_with_array t (<[position := Some (key, data)]> (lp_array t)))
  end.

(** The pairs of an array, in slot order. *)
Definition items {X} (arr : list (option (string * X))) : list (string * X) :=
  omap id arr.

(** [sub_table[key] = data] *)
Fixpoint lp_setitem (fuel : nat) (t : LinearProbeTable) (key : string) (data : V)
  : result LinearProbeTable :=
  match fuel with
  | 0 => OutOfFuel
  | S fuel =>
    t ← lp_store t key data;
    if (Z.of_nat (length (lp_array t)) <? 2 * lp_count t)%Z then
      match lp_sizes t !! (lp_size_index t + 1) with
      | None => Ok t
      | Some n =>
        arr ← new_array n;
        foldl (fun r kv => t ← r; lp_setitem fuel t kv.1 kv.2)
              (Ok (mkLPT (lp_sizes t) (lp_size_index t + 1) arr 0))
              (items (lp_array t))
      end
    else Ok t
  end.

(** The composite table. *)
Record DKT := mkDKT {
  TABLE_SIZES : list Z;
  internal_sizes : list Z;
  size_index : nat;
  array : list (option (string * LinearProbeTable));
  count : Z
}.

Definition DEFAULT_SIZES : list Z :=
  [5; 13; 29; 53; 97; 193; 389; 769; 1543; 3079; 6151; 12289; 24593; 49157;
   98317; 196613; 393241; 786433; 1572869]%Z.

(** [__init__(self, sizes, internal_sizes)] *)
Definition init (sizes internal_sizes : option (list Z)) : result DKT :=
  let TABLE_SIZES := default DEFAULT_SIZES sizes in
  let internal_sizes := default TABLE_SIZES internal_sizes in
  match TABLE_SIZES !! 0 with
  | None => Raise IndexError
  | Some n => arr ← new_array n; Ok (mkDKT TABLE_SIZES internal_sizes 0 arr 0)
  end.

Definition table_size (self : DKT) : nat := length (array self).
Definition __len__ (self : DKT) : Z := count self.

Definition with_array (self : DKT) arr : DKT :=
  mkDKT (TABLE_SIZES self) (internal_sizes self) (size_index self) arr (count self).
Definition with_slot (self : DKT) (i : nat) s : DKT :=
  with_array self (<[i := s]> (array self)).
Definition add_count (self : DKT) (d : Z) : DKT :=
  mkDKT (TABLE_SIZES self) (internal_sizes self) (size_index self) (array self)
        (count self + d).

(** [hash1(self, key)] *)
Definition hash1 (self : DKT) (key : string) : result nat :=
  hash_string (table_size self) key.

(** A computation that mutates the table and may raise: the table it
    leaves and its outcome. *)
Definition outcome (A : Type) : Type := DKT * result A.

(** The second half of [_linear_probe] (lines 142-166), in the inner
    table of the slot found. *)
Definition probe_inner (position_1 : nat) (key2 : string) (is_insert : bool)
    (sub_table : LinearProbeTable) : result (nat * nat) :=
  position_2 ← hash2 key2 sub_table;
  position_2 ← probe_loop (lp_array sub_table) key2 is_insert
                 (length (lp_array sub_table)) position_2;
  Ok (position_1, position_2).

(** [_linear_probe(self, key1, key2, is_insert)]; [key2] is always given
    by the methods below. *)
Definition _linear_probe (self : DKT) (key1 key2 : string) (is_insert : bool)
  : outcome (nat * nat) :=
  match hash1 self key1 ≫= probe_loop (array self) key1 is_insert (table_size self) with
  | Raise e => (self, Raise e)
  | OutOfFuel => (self, OutOfFuel)
  | Ok position_1 =>
    match array self !! position_1 with
    | None => (self, Raise IndexError)
    | Some None =>
      if is_insert then
        match lp_init (internal_sizes self) with
        | Ok sub_table =>
          (with_slot self position_1 (Some (key1, sub_table)),
           probe_inner position_1 key2 is_insert sub_table)
        | Raise e => (self, Raise e)
        | OutOfFuel => (self, OutOfFuel)
        end
      else (self, Raise TypeError)
    | Some (Some (_, sub_table)) =>
      (self, probe_inner position_1 key2 is_insert sub_table)
    end
  end.

(** [__getitem__(self, (key1, key2))] *)
Definition __getitem__ (self : DKT) (key1 key2 : string) : result V :=
  '(position1, position2) ← (_linear_probe self key1 key2 false).2;
  match array self !! position1 with
  | Some (Some (_, sub_table)) =>
    match lp_array sub_table !! position2 with
    | Some (Some (_, value)) => Ok value
    | Some None => Raise TypeError
    | None => Raise IndexError
    end
  | Some None => Raise TypeError
  | None => Raise IndexError
  end.

(** [__contains__]: only [KeyError] is caught. *)
Definition __contains__ (self : DKT) (key1 key2 : string) : result bool :=
  match __getitem__ self key1 key2 with
  | Ok _ => Ok true
  | Raise KeyError => Ok false
  | Raise e => Raise e
  | OutOfFuel => OutOfFuel
  end.

(** Lines 324-331 of [__setitem__]: all but the resize. *)
Definition set_insert (fuel : nat) (self : DKT) (key1 key2 : string) (data : V)
  : outcome unit :=
  let '(self, r) := _linear_probe self key1 key2 true in
  match r with
  | Raise e => (self, Raise e)
  | OutOfFuel => (self, OutOfFuel)
  | Ok (position1, _) =>
    match array self !! position1 with
    | Some (Some (k, sub_table)) =>
      let self := if is_empty sub_table then add_count self 1 else self in
      match lp_setitem fuel sub_table key2 data with
      | Ok sub_table => (with_slot self position1 (Some (k, sub_table)), Ok ())
      | Raise e => (self, Raise e)
      | OutOfFuel => (self, OutOfFuel)
      end
    | Some None => (self, Raise TypeError)
    | None => (self, Raise IndexError)
    end
  end.

(** [len(self) > self.table_size / 2] *)
Definition over_half (self : DKT) : bool :=
  (Z.of_nat (table_size self) <? 2 * __len__ self)%Z.

(** The loops of [_rehash] (lines 413-423), given [self[...] = value]. *)
Fixpoint rehash_pairs (set : DKT -> string -> string -> V -> outcome unit)
    (key1 : string) (pairs : list (option (string * V))) (self : DKT)
  : outcome unit :=
  match pairs with
  | [] => (self, Ok ())
  | None :: pairs => rehash_pairs set key1 pairs self
  | Some (key2, value) :: pairs =>
    match set self key1 key2 value with
    | (self, Ok _) => rehash_pairs set key1 pairs self
    | failed => failed
    end
  end.

Fixpoint rehash_slots (set : DKT -> string -> string -> V -> outcome unit)
    (old_array : list (option (string * LinearProbeTable))) (old_count : Z)
    (self : DKT) : outcome unit :=
  match old_array with
  | [] => (self, Ok ())
  | item1 :: old_array =>
    let '(self, r, old_count) :=
      match item1 with
      | Some (key1, sub_table) =>
        (rehash_pairs set key1 (lp_array sub_table) self, (old_count - 1)%Z)
      | None => (self, Ok (), old_count)
      end in
    match r with
    | Ok _ =>
      if (old_count =? 0)%Z then (self, Ok ())
      else rehash_slots set old_array old_count self
    | _ => (self, r)
    end
  end.

(** [_rehash(self)], given [self[...] = value]. *)
Definition rehash_with (set : DKT -> string -> string -> V -> outcome unit)
    (self : DKT) : outcome unit :=
  let self := mkDKT (TABLE_SIZES self) (internal_sizes self) (size_index self + 1)
                    (array self) (count self) in
  let old_array := array self in
  let old_count := count self in
  match TABLE_SIZES self !! size_index self with
  | None => (self, Raise IndexError)
  | Some n =>
    match new_array n with
    | Ok arr =>
      rehash_slots set old_array old_count
        (mkDKT (TABLE_SIZES self) (internal_sizes self) (size_index self) arr 0)
    | Raise e => (self, Raise e)
    | OutOfFuel => (self, OutOfFuel)
    end
  end.

(** [__setitem__(self, (key1, key2), data)] *)
Fixpoint __setitem__ (fuel : nat) (self : DKT) (key1 key2 : string) (data : V)
  : outcome unit :=
  match fuel with
  | 0 => (self, OutOfFuel)
  | S fuel =>
    match set_insert fuel self key1 key2 data with
    | (self, Ok _) =>
      if over_half self then rehash_with (__setitem__ fuel) self
      else (self, Ok ())
    | failed => failed
    end
  end.

(** [_rehash(self)] *)
Definition _rehash (fuel : nat) (self : DKT) : outcome unit :=
  rehash_with (__setitem__ fuel) self.

(** The second loop of [__delitem__] (lines 392-397), on [sub_table]. *)
Fixpoint del_shift (fuel : nat) (sub_table : LinearProbeTable) (position2 : nat)
  : result LinearProbeTable :=
  match fuel with
  | 0 => OutOfFuel
  | S fuel =>
    match lp_array sub_table !! position2 with
    | None => Raise IndexError
    | Some None => Ok sub_table
    | Some (Some (k, v)) =>
      let sub_table :=
        lp_add_count (lp_with_array sub_table (<[position2 := None]> (lp_array sub_table))) (-1) in
      sub_table ← lp_setitem fuel sub_table k v;
      del_shift fuel sub_table ((position2 + 1) mod length (lp_array sub_table))
    end
  end.

(** Where the object [sub_table] of the first loop of [__delitem__] is:
    still in the slot [position1] of [self.array], or, once a resize has
    replaced [self.array], an object no longer in the table. *)
Inductive held :=
| InSlot
| Apart (sub_table : LinearProbeTable).

Definition held_table (self : DKT) (position1 : nat) (h : held)
  : result LinearProbeTable :=
  match h with
  | Apart sub_table => Ok sub_table
  | InSlot =>
    match array self !! position1 with
    | Some (Some (_, sub_table)) => Ok sub_table
    | Some None => Raise TypeError
    | None => Raise IndexError
    end
  end.

Definition lp_clear (sub_table : LinearProbeTable) (i : nat) : LinearProbeTable :=
  lp_add_count (lp_with_array sub_table (<[i := None]> (lp_array sub_table))) (-1).

(** The [for] loop of lines 373-378: [self[(key1, key2)] = value] is
    [set_insert] followed by the resize, so that the place of [sub_table]
    is known when [self.array] is replaced. *)
Fixpoint del_rehome (fuel : nat) (key1 : string) (position1 : nat)
    (indices : list nat) (h : held) (self : DKT) : outcome unit :=
  match indices with
  | [] => (self, Ok ())
  | i :: indices =>
    match held_table self position1 h with
    | Raise e => (self, Raise e)
    | OutOfFuel => (self, OutOfFuel)
    | Ok sub_table =>
      match lp_array sub_table !! i with
      | None => (self, Raise IndexError)
      | Some None => del_rehome fuel key1 position1 indices h self
      | Some (Some (key2, value)) =>
        let '(self, h) :=
          match h with
          | InSlot => (with_slot self position1 (Some (key1, lp_clear sub_table i)), InSlot)
          | Apart _ => (self, Apart (lp_clear sub_table i))
          end in
        match set_insert fuel self key1 key2 value with
        | (self, Ok _) =>
          if over_half self then
            match held_table self position1 h with
            | Ok sub_table =>
              match _rehash fuel self with
              | (self, Ok _) =>
                del_rehome fuel key1 position1 indices (Apart sub_table) self
              | failed => failed
              end
            | Raise e => (self, Raise e)
            | OutOfFuel => (self, OutOfFuel)
            end
          else del_rehome fuel key1 position1 indices h self
        | failed => failed
        end
      end
    end
  end.

(** The [while] loop of lines 370-379. *)
Fixpoint del_sweep (fuel : nat) (self : DKT) (position1 : nat) : outcome unit :=
  match fuel with
  | 0 => (self, OutOfFuel)
  | S fuel =>
    match array self !! position1 with
    | None => (self, Raise IndexError)
    | Some None => (self, Ok ())
    | Some (Some (key1, sub_table)) =>
      match del_rehome fuel key1 position1 (seq 0 (length (lp_array sub_table)))
              InSlot self with
      | (self, Ok _) => del_sweep fuel self ((position1 + 1) mod table_size self)
      | failed => failed
      end
    end
  end.

(** [__delitem__(self, (key1, key2))] *)
Definition __delitem__ (fuel : nat) (self : DKT) (key1 key2 : string)
  : outcome unit :=
  match _linear_probe self key1 key2 false with
  | (_, Ok (position1, position2)) =>
    match array self !! position1 with
    | Some (Some (k, sub_table)) =>
      if (lp_count sub_table =? 1)%Z then
        let self := add_count (with_slot self position1 None) (-1) in
        del_sweep fuel self ((position1 + 1) mod table_size self)
      else
        let sub_table := lp_clear sub_table position2 in
        match del_shift fuel sub_table ((position2 + 1) mod length (lp_array sub_table)) with
        | Ok sub_table => (with_slot self position1 (Some (k, sub_table)), Ok ())
        | Raise e => (self, Raise e)
        | OutOfFuel => (self, OutOfFuel)
        end
    | Some None => (self, Raise TypeError)
    | None => (self, Raise IndexError)
    end
  | (_, Raise e) => (self, Raise e)
  | (_, OutOfFuel) => (self, OutOfFuel)
  end.

(** [_linear_probe(self, key1, None, False)]: the call of [iter_keys] and
    [iter_values], which stops after the outer level (lines 113-134,
    168-169) and returns [position_1]. *)
Definition probe_top (self : DKT) (key1 : string) : result nat :=
  hash1 self key1 ≫= probe_loop (array self) key1 false (table_size self).

(** [keys(self, key)] is the list of what [iter_keys(self, key)] yields. *)
Definition keys (self : DKT) (key : option string) : result (list string) :=
  match key with
  | None => Ok ((items (array self)).*1)
  | Some key =>
    key1_position ← probe_top self key;
    match array self !! key1_position with
    | Some (Some (_, sub_table)) => Ok ((items (lp_array sub_table)).*1)
    | Some None => Raise TypeError
    | None => Raise IndexError
    end
  end.

(** [values(self, key)] is the list of what [iter_values(self, key)]
    yields. *)
Definition values (self : DKT) (key : option string) : result (list V) :=
  match key with
  | None =>
    Ok (flat_map (fun item : string * LinearProbeTable =>
                    (items (lp_array item.2)).*2) (items (array self)))
  | Some key =>
    key1_position ← probe_top self key;
    match array self !! key1_position with
    | Some (Some (_, sub_table)) => Ok ((items (lp_array sub_table)).*2)
    | Some None => Raise TypeError
    | None => Raise IndexError
    end
  end.

End WithValue.
Arguments LinearProbeTable : clear implicits.
Arguments DKT : clear implicits.
Arguments held : clear implicits.
Arguments outcome : clear implicits.
End DoubleKeyTable.

(** ** Notions used to state the properties of the trie *)

Module TrieSpec.
Import InfiniteHashTable.

(** A node given by its occupied slots. *)
Definition node {V} (slots : list (nat * (string * entry V))) (cnt : Z) (lvl : nat)
  : IHT V :=
  mkIHT (foldr (fun s arr => <[s.1 := Some s.2]> arr) (ArrayR TABLE_SIZE) slots) cnt lvl.

(** [__setitem__] for each pair in turn, from the empty table. *)
Definition insert_all {V} (fuel : nat) (l : list (string * V)) : result (IHT V) :=
  foldl (fun t kv => t ← t; __setitem__ fuel t kv.1 kv.2) (Ok (init 0)) l.

Definition four_words : list (string * nat) :=
  [("dog", 1); ("cat", 2); ("ant", 3); ("apple", 4)].

(** The table that holds "cat", and the table that holds "a". *)
Definition one_word : IHT nat := node [(21, ("cat", Val 1))] 1 0.
Definition one_letter : IHT nat := node [(19, ("a", Val 1))] 1 0.

(** The accumulator of [sort_keys_aux] is only appended to. *)
Definition prepend (acc : list string) (r : result (list string))
  : result (list string) :=
  l ← r; Ok (acc ++ l).

Section WithValue.
Context {V : Type}.

(** Every key field of a slot, and of the table below it, is non-empty. *)
Inductive slot_ok : option (string * entry V) -> Prop :=
| slot_ok_none : slot_ok None
| slot_ok_val k v : k <> "" -> slot_ok (Some (k, Val v))
| slot_ok_tab k t :
    k <> "" -> (forall i s, array t !! i = Some s -> slot_ok s) ->
    slot_ok (Some (k, Tab t)).

Definition ok_except (ex : option nat) (t : IHT V) : Prop :=
  forall i s, array t !! i = Some s -> Some i <> ex -> slot_ok s.

(** What every root table built by the operations satisfies. *)
Record root_inv (t : IHT V) : Prop := {
  root_level : level t = 0;
  root_length : length (array t) = TABLE_SIZE;
  root_last : array t !! 26 = Some None \/
              exists v, array t !! 26 = Some (Some ("", Val v));
  root_keys : ok_except (Some 26) t
}.

(** The tables a program can build: from the empty table, by calls of
    [__setitem__] and [__delitem__] that return. *)
Inductive reachable : IHT V -> Prop :=
| reach_init : reachable (init 0)
| reach_set fuel t key value t' :
    reachable t -> __setitem__ fuel t key value = Ok t' -> reachable t'
| reach_del fuel t key t' :
    reachable t -> __delitem__ fuel t key = Ok t' -> reachable t'.

End WithValue.
End TrieSpec.

(** ** Notions used to state the properties of the two-level table *)

Module TableSpec.
Import DoubleKeyTable.
Section WithValue.
Context {V : Type}.

(** Room for one more pair at both levels: after it, no more than half
    of the slots are in use, in the outer array, in every inner table, and
    in an inner table made for a new first key. *)
Definition inner_room (self : DKT V) : Prop :=
  (forall i k sub_table, array self !! i = Some (Some (k, sub_table)) ->
     (2 * (lp_count sub_table + 1) <= Z.of_nat (length (lp_array sub_table)))%Z) /\
  (forall n, internal_sizes self !! 0 = Some n -> (2 <= n)%Z).

Definition has_room (self : DKT V) : Prop :=
  (2 * (count self + 1) <= Z.of_nat (table_size self))%Z /\ inner_room self.

(** The capacity is the value of the ladder at the current index. *)
Definition capacity_on_ladder (self : DKT V) : Prop :=
  exists n, TABLE_SIZES self !! size_index self = Some n /\
            table_size self = Z.to_nat n.

Definition at_most_half (self : DKT V) : Prop :=
  (2 * count self <= Z.of_nat (table_size self))%Z.

(** What a table keeps from [self] to [self']: its two ladders; its index
    into the ladder does not go back; and its capacity stays on the
    ladder if it was. *)
Definition grows (self self' : DKT V) : Prop :=
  TABLE_SIZES self' = TABLE_SIZES self /\
  internal_sizes self' = internal_sizes self /\
  size_index self <= size_index self' /\
  (capacity_on_ladder self -> capacity_on_ladder self').

End WithValue.

(** The table [DoubleKeyTable()] builds, with values in [nat]. *)
Definition fresh : DKT nat := mkDKT DEFAULT_SIZES DEFAULT_SIZES 0 (ArrayR 5) 0.


(** The table left by a run of [__setitem__] calls, whatever they return. *)
Definition after_sets (fuel : nat) (pairs : list (string * string * nat))
    (self : DKT nat) : DKT nat :=
  foldl (fun s p => (__setitem__ fuel s p.1.1 p.1.2 p.2).1) self pairs.
End TableSpec.

(** ** Properties of the trie *)

Module TrieFacts.
Import InfiniteHashTable TrieSpec.

(** C9 as stated fails: the index is the character code modulo 26, so
    an upper-case letter and its lower-case letter fall in different
    buckets (['A'] in 13, ['a'] in 19). *)
Lemma hash_case_sensitive :
  ~ (hash (@init nat 0) "A" = hash (@init nat 0) "a").
Proof. vm_compute. discriminate. Qed.

(** C9, amended.  [hash] maps the character of the key at position
    [level] to its code modulo 26, one of the 26 bucket indices, and a
    key of at most [level] characters to the terminal index 26. *)
Theorem hash_spec {V} (self : IHT V) (key : string) :
  (String.length key <= level self -> hash self key = 26) /\
  (level self < String.length key ->
     hash self key = ord_at key (level self) mod 26 /\ hash self key < 26).
Proof.
  unfold hash. split; intros H.
  - destruct (Nat.ltb_spec (level self) (String.length key)); [lia | reflexivity].
  - destruct (Nat.ltb_spec (level self) (String.length key)); [| lia].
    split; [reflexivity |]. apply Nat.mod_upper_bound. discriminate.
Qed.

Lemma hash_spec_witness :
  (String.length "cat" <= level (@init nat 3) -> hash (@init nat 3) "cat" = 26) /\
  (level (@init nat 1) < String.length "cat" ->
     hash (@init nat 1) "cat" = ord_at "cat" 1 mod 26 /\ hash (@init nat 1) "cat" < 26).
Proof.
  split.
  - exact (proj1 (hash_spec (@init nat 3) "cat")).
  - exact (proj2 (hash_spec (@init nat 1) "cat")).
Defined.

(** C4.  From the empty table, [set("cat", 1)] then [set("car", 2)]
    leaves one slot of the root holding a node of level 1, whose one slot
    holds a node of level 2 with the two pairs, and both keys are
    retrieved; [delete("car")] then restores the table that held "cat"
    alone, in the slot of the root it first had. *)
Theorem cat_car (fuel : nat) :
  3 <= fuel ->
  exists t1 t2 t3 : IHT nat,
    __setitem__ fuel (init 0) "cat" 1 = Ok t1 /\
    __setitem__ fuel t1 "car" 2 = Ok t2 /\
    t1 = node [(21, ("cat", Val 1))] 1 0 /\
    t2 = node [(21, ("c", Tab (node [(19, ("ca", Tab (node
                 [(10, ("car", Val 2)); (12, ("cat", Val 1))] 2 2)))] 2 1)))] 2 0 /\
    __getitem__ fuel t2 "cat" = Ok 1 /\
    __getitem__ fuel t2 "car" = Ok 2 /\
    __delitem__ fuel t2 "car" = Ok t3 /\
    t3 = t1 /\
    get_location fuel t3 "cat" = Ok [21] /\
    __getitem__ fuel t3 "cat" = Ok 1 /\
    __contains__ fuel t3 "car" = Ok false.
Proof.
  intros H. destruct fuel as [|[|[|fuel]]]; [lia | lia | lia |].
  do 3 eexists. repeat split; vm_compute; reflexivity.
Qed.

Section WithValue.
Context {V : Type}.
Implicit Types (t : IHT V) (s : option (string * entry V)) (x : entry V).

Lemma ok_except_weaken ex t : ok_except None t -> ok_except ex t.
Proof. intros H i s Hi _. apply (H i s Hi). discriminate. Qed.

Lemma slot_ok_tab_inv k t : slot_ok (Some (k, Tab t)) -> ok_except None t.
Proof. inversion 1; subst. intros i s Hi _. eauto. Qed.

Lemma slot_ok_key k x : slot_ok (Some (k, x)) -> k <> "".
Proof. inversion 1; subst; assumption. Qed.

Lemma slice_nonempty k n : k <> "" -> slice k (n + 1) <> "".
Proof. destruct k; [congruence |]. rewrite Nat.add_1_r. discriminate. Qed.

Lemma ok_except_init ex lvl : ok_except ex (@init V lvl).
Proof.
  intros i s Hi _.
  change (replicate TABLE_SIZE None !! i = Some s) in Hi.
  apply lookup_replicate in Hi as [-> _]. constructor.
Qed.

Lemma ok_except_with_slot ex t i s :
  ok_except ex t -> (Some i <> ex -> slot_ok s) -> ok_except ex (with_slot t i s).
Proof.
  intros H Hs j s' Hj Hne. unfold with_slot in Hj. simpl in Hj.
  destruct (decide (i = j)) as [<- | Hij].
  - apply list_lookup_insert_Some in Hj as [[_ [<- _]] | [? _]]; [auto | congruence].
  - rewrite list_lookup_insert_ne in Hj by assumption. eauto.
Qed.

Lemma ok_except_add_count ex t d : ok_except ex t -> ok_except ex (add_count t d).
Proof. intros H. exact H. Qed.

Lemma set_item_aux_ok fuel : forall ex t key value lvl t',
  ok_except ex t -> key <> "" -> Some (hash t key) <> ex ->
  set_item_aux fuel t key value lvl = Ok t' -> ok_except ex t'.
Proof.
  induction fuel as [| fuel IH]; intros ex t key value lvl t' Hok Hkey Hex Hset;
    [discriminate |].
  simpl in Hset.
  destruct (array t !! hash t key) as [[[k x] |] |] eqn:Hslot; [| | discriminate].
  - assert (Hk : slot_ok (Some (k, x))) by (eapply Hok; eauto).
    destruct (String.eqb k key).
    + inversion Hset; subst. apply ok_except_with_slot; [assumption |].
      intros _. constructor. assumption.
    + destruct x as [v0 | t0].
      * destruct (set_item_aux fuel (init (lvl + 1)) k v0 (lvl + 1)) as [c1 | |] eqn:H1;
          try discriminate.
        simpl in Hset.
        destruct (set_item_aux fuel c1 key value (lvl + 1)) as [c2 | |] eqn:H2;
          try discriminate.
        inversion Hset; subst.
        apply slot_ok_key in Hk.
        assert (ok_except None c1).
        { apply (IH None _ k v0 (lvl + 1) c1 (ok_except_init _ _) Hk ltac:(discriminate) H1). }
        assert (Hc2 : ok_except None c2).
        { apply (IH None c1 key value (lvl + 1) c2 H Hkey ltac:(discriminate) H2). }
        apply ok_except_with_slot; [apply ok_except_add_count; assumption |].
        intros _. constructor; [apply slice_nonempty; assumption |].
        intros i s Hi. eapply Hc2; [eassumption | discriminate].
      * destruct (set_item_aux fuel t0 key value (lvl + 1)) as [c | |] eqn:H1;
          try discriminate.
        inversion Hset; subst.
        assert (Hc : ok_except None c).
        { apply (IH None t0 key value (lvl + 1) c (slot_ok_tab_inv _ _ Hk) Hkey ltac:(discriminate) H1). }
        apply ok_except_with_slot; [apply ok_except_add_count; assumption |].
        intros _. constructor; [eapply slot_ok_key; eassumption |].
        intros i s Hi. eapply Hc; [eassumption | discriminate].
  - inversion Hset; subst.
    apply ok_except_with_slot; [apply ok_except_add_count; assumption |].
    intros _. constructor. assumption.
Qed.

Lemma first_item_lookup (arr : list (option (string * entry V))) it :
  first_item arr = Some it -> exists i, arr !! i = Some (Some it).
Proof.
  unfold first_item. induction arr as [| [a |] arr IH]; simpl; intros H.
  - discriminate.
  - inversion H; subst. exists 0. reflexivity.
  - destruct (IH H) as [i Hi]. exists (S i). exact Hi.
Qed.

Lemma level_with_slot t i s d : level (with_slot (add_count t d) i s) = level t.
Proof. reflexivity. Qed.

Lemma array_with_slot t i s d :
  array (with_slot (add_count t d) i s) = <[i := s]> (array t).
Proof. reflexivity. Qed.

Lemma add_count_0 t : add_count t 0 = t.
Proof. destruct t. unfold add_count. simpl. f_equal. lia. Qed.

#[local] Opaque with_slot add_count.

Lemma delete_item_aux_ok fuel : forall is_self t ll idx pd len t' item,
  ok_except None t ->
  delete_item_aux fuel is_self t ll idx pd len = Ok (t', item) ->
  ok_except None t' /\ (forall it, item = Some it -> slot_ok (Some it)).
Proof.
  induction fuel as [| fuel IH]; intros is_self t ll idx pd len t' item Hok Hdel;
    [discriminate |].
  simpl in Hdel.
  destruct (ll !! idx) as [ti |]; [| discriminate].
  destruct (array t !! ti) as [slot |] eqn:Hslot; [| discriminate].
  remember (add_count (with_slot t ti None) (-1)) as t1 eqn:Et1.
  assert (Hok1 : ok_except None t1).
  { subst t1. apply ok_except_add_count, ok_except_with_slot; [assumption | constructor]. }
  clear Et1.
  destruct ((pd =? 0)%Z && (Z.of_nat idx =? Z.of_nat len - 1)%Z).
  - assert (Hfirst : forall it, first_item (array t1) = Some it -> slot_ok (Some it)).
    { intros it Hfirst. apply first_item_lookup in Hfirst as [i Hi].
      apply (Hok1 i _ Hi). discriminate. }
    destruct (count t1 <=? 1)%Z; [destruct (first_item (array t1)) as [it |] |];
      destruct is_self; simpl in Hdel; try discriminate; injection Hdel as <- <-;
      (split; [assumption |]); intros it' Hit'; inversion Hit'; subst;
      apply Hfirst; reflexivity.
  - destruct slot as [[k [v | f]] |]; try discriminate.
    destruct (delete_item_aux fuel false f ll (idx + 1) (pd - 1) len)
      as [[f' only] | |] eqn:Hrec; try discriminate.
    simpl in Hdel.
    assert (Hs : slot_ok (Some (k, Tab f))) by (apply (Hok ti _ Hslot); discriminate).
    destruct (IH _ _ _ _ _ _ _ _ (slot_ok_tab_inv _ _ Hs) Hrec) as [Hf' Honly].
    assert (Hok2 : ok_except None
              (add_count (with_slot t ti (Some (k, Tab f'))) (-1))).
    { apply ok_except_add_count, ok_except_with_slot; [assumption |].
      intros _. constructor; [eapply slot_ok_key; eassumption |].
      intros i s Hi. apply (Hf' i s Hi). discriminate. }
    destruct only as [it |].
    + destruct ((1 <? count _)%Z || is_self); inversion Hdel; subst.
      * split; [| discriminate].
        apply ok_except_with_slot; [assumption | intros _; apply Honly; reflexivity].
      * split; [| intros it' [= <-]; apply Honly; reflexivity].
        apply ok_except_with_slot; [assumption | constructor].
    + inversion Hdel; subst. split; [assumption | discriminate].
Qed.

Lemma root_inv_init : root_inv (@init V 0).
Proof.
  split; [reflexivity | reflexivity | left; reflexivity | apply ok_except_init].
Qed.

Lemma root_inv_with_slot t i s d :
  root_inv t -> i <> 26 -> slot_ok s ->
  root_inv (with_slot (add_count t d) i s).
Proof.
  intros [Hl Hn Hlast Hk] Hi Hs. split.
  - rewrite level_with_slot. exact Hl.
  - rewrite array_with_slot, length_insert. exact Hn.
  - rewrite array_with_slot, list_lookup_insert_ne by assumption. exact Hlast.
  - apply ok_except_with_slot; [exact Hk | auto].
Qed.

Lemma root_inv_with_last t s d :
  root_inv t -> (s = None \/ exists v, s = Some ("", Val v)) ->
  root_inv (with_slot (add_count t d) 26 s).
Proof.
  intros [Hl Hn Hlast Hk] Hs. split.
  - rewrite level_with_slot. exact Hl.
  - rewrite array_with_slot, length_insert. exact Hn.
  - rewrite array_with_slot, list_lookup_insert_eq
      by (rewrite Hn; unfold TABLE_SIZE; lia).
    destruct Hs as [-> | [v ->]]; [left | right; exists v]; reflexivity.
  - apply ok_except_with_slot; [exact Hk | congruence].
Qed.

Lemma hash_root_last t key : level t = 0 -> (hash t key = 26 <-> key = "").
Proof.
  intros Hl. unfold hash. rewrite Hl. destruct key as [| c key]; simpl.
  - split; reflexivity.
  - split; [| discriminate]. intros H.
    pose proof (Nat.mod_upper_bound (ord_at (String c key) 0) 26 ltac:(discriminate)).
    unfold TABLE_SIZE in H. simpl in H. lia.
Qed.

Lemma set_item_aux_shape fuel t key value lvl t' :
  set_item_aux fuel t key value lvl = Ok t' ->
  exists d s, t' = with_slot (add_count t d) (hash t key) s.
Proof.
  destruct fuel as [| fuel]; [discriminate |]. simpl. intros Hset.
  destruct (array t !! hash t key) as [[[k x] |] |]; [| | discriminate].
  - destruct (String.eqb k key).
    + injection Hset as <-. exists 0%Z. rewrite add_count_0. eauto.
    + destruct x as [v0 | t0].
      * destruct (set_item_aux fuel _ k v0 _) as [c1 | |]; try discriminate.
        simpl in Hset.
        destruct (set_item_aux fuel c1 key value _) as [c2 | |]; try discriminate.
        injection Hset as <-. eauto.
      * destruct (set_item_aux fuel t0 key value _) as [c | |]; try discriminate.
        injection Hset as <-. eauto.
  - injection Hset as <-. eauto.
Qed.

Lemma root_inv_set fuel t key value t' :
  root_inv t -> __setitem__ fuel t key value = Ok t' -> root_inv t'.
Proof.
  intros Hinv Hset. unfold __setitem__ in Hset.
  pose proof (hash_root_last t key (root_level _ Hinv)) as Hh.
  destruct (decide (key = "")) as [-> | Hne].
  - assert (H26 : hash t "" = 26) by (apply Hh; reflexivity).
    destruct fuel as [| fuel]; [discriminate |]. simpl in Hset. rewrite H26 in Hset.
    destruct (root_last _ Hinv) as [Hl | [v0 Hl]]; rewrite Hl in Hset; simpl in Hset;
      injection Hset as <-; [| rewrite <- (add_count_0 t)];
      (apply root_inv_with_last; [assumption | right; eexists; reflexivity]).
  - assert (H26 : hash t key <> 26) by (intros H; apply Hne, Hh, H).
    destruct (set_item_aux_shape _ _ _ _ _ _ Hset) as (d & s & Ht').
    pose proof (set_item_aux_ok fuel (Some 26) t key value 0 t' (root_keys _ Hinv) Hne
                  ltac:(congruence) Hset) as Hok.
    destruct Hinv as [Hl Hn Hlast Hk]. subst t'. split.
    + rewrite level_with_slot. exact Hl.
    + rewrite array_with_slot, length_insert. exact Hn.
    + rewrite array_with_slot, list_lookup_insert_ne by assumption. exact Hlast.
    + exact Hok.
Qed.

Lemma root_inv_del fuel t key t' :
  root_inv t -> __delitem__ fuel t key = Ok t' -> root_inv t'.
Proof.
  intros Hinv Hdel. unfold __delitem__ in Hdel.
  destruct (get_location fuel t key) as [ll | |]; try discriminate.
  simpl in Hdel.
  destruct (delete_item_aux fuel true t ll 0 _ _) as [[t1 only] | |] eqn:Haux;
    try discriminate.
  injection Hdel as <-.
  destruct fuel as [| fuel]; [discriminate |]. simpl in Haux.
  destruct (ll !! 0) as [ti |]; [| discriminate].
  destruct (array t !! ti) as [slot |] eqn:Hslot; [| discriminate].
  assert (Hbase : root_inv (add_count (with_slot t ti None) (-1))).
  { replace (add_count (with_slot t ti None) (-1))
      with (with_slot (add_count t (-1)) ti None) by reflexivity.
    destruct (decide (ti = 26)) as [-> | Hti].
    - apply root_inv_with_last; [assumption | left; reflexivity].
    - apply root_inv_with_slot; [assumption | assumption | constructor]. }
  destruct (_ && _).
  - destruct (count _ <=? 1)%Z; [destruct (first_item _) |];
      simpl in Haux; injection Haux as <- _; exact Hbase.
  - destruct slot as [[k [v | f]] |]; try discriminate.
    assert (Hti : ti <> 26).
    { intros ->. destruct (root_last _ Hinv) as [Hl | [v Hl]]; congruence. }
    assert (Hs : slot_ok (Some (k, Tab f))).
    { apply (root_keys _ Hinv _ _ Hslot). congruence. }
    destruct (delete_item_aux fuel false f ll _ _ _) as [[f' item] | |] eqn:Hrec;
      try discriminate.
    simpl in Haux.
    destruct (delete_item_aux_ok _ _ _ _ _ _ _ _ _ (slot_ok_tab_inv _ _ Hs) Hrec)
      as [Hf' Hitem].
    assert (Hmid : root_inv (add_count (with_slot t ti (Some (k, Tab f'))) (-1))).
    { replace (add_count (with_slot t ti (Some (k, Tab f'))) (-1))
        with (with_slot (add_count t (-1)) ti (Some (k, Tab f'))) by reflexivity.
      apply root_inv_with_slot; [assumption | assumption |].
      constructor; [eapply slot_ok_key; eassumption |].
      intros i s Hi. apply (Hf' i s Hi). discriminate. }
    destruct item as [it |].
    + rewrite orb_true_r in Haux. injection Haux as <- _.
      rewrite <- (add_count_0 (add_count _ _)).
      apply root_inv_with_slot; [assumption | assumption | apply Hitem; reflexivity].
    + injection Haux as <- _. exact Hmid.
Qed.
Lemma sort_fold_fail (rec : IHT V -> list string -> result (list string)) t r idx :
  (forall l, r <> Ok l) ->
  foldl (fun acc i => acc ← acc; sort_step rec t acc i) r idx = r.
Proof.
  intros Hr. induction idx as [| i idx IH]; [reflexivity |].
  cbn [foldl]. destruct r as [l | e |]; [destruct (Hr l); reflexivity | exact IH | exact IH].
Qed.

Lemma sort_keys_aux_nonempty fuel : forall ex t acc l,
  ok_except ex t -> ex = None \/ (ex = Some 26 /\ level t = 0) ->
  "" ∉ acc -> sort_keys_aux fuel t acc = Ok l -> "" ∉ l.
Proof.
  induction fuel as [| fuel IH]; intros ex t acc l Hok Hex Hacc Hsort;
    [discriminate |].
  cbn [sort_keys_aux] in Hsort.
  destruct (array t !! (TABLE_SIZE - 1)) as [last |] eqn:Hlast; [| discriminate].
  match type of Hsort with foldl _ (Ok ?a) _ = _ => set (acc1 := a) in * end.
  assert (Hacc1 : "" ∉ acc1).
  { subst acc1. destruct last as [[k x] |]; [| assumption].
    destruct (level t =? 0) eqn:Hl; cbn [negb]; [assumption |].
    apply Nat.eqb_neq in Hl.
    destruct Hex as [-> | [_ ?]]; [| contradiction].
    apply not_elem_of_app. split; [assumption |].
    rewrite not_elem_of_cons. split; [| apply not_elem_of_nil].
    intros Heq. symmetry in Heq. revert Heq. eapply slot_ok_key.
    apply (Hok _ _ Hlast). discriminate. }
  clearbody acc1. clear Hacc Hlast last.
  revert acc1 Hacc1 Hsort. generalize (seq 97 26) as idx.
  induction idx as [| i idx IHidx]; intros acc1 Hacc1 Hsort; cbn [foldl] in Hsort.
  - injection Hsort as <-. assumption.
  - change (Ok acc1 ≫= (fun acc0 => sort_step (sort_keys_aux fuel) t acc0 i))
      with (sort_step (sort_keys_aux fuel) t acc1 i) in Hsort.
    assert (Hpos : i mod (TABLE_SIZE - 1) <> 26).
    { pose proof (Nat.mod_upper_bound i (TABLE_SIZE - 1) ltac:(discriminate)) as Hb.
      change (TABLE_SIZE - 1) with 26 in *. lia. }
    unfold sort_step in Hsort at 2.
    destruct (array t !! (i mod (TABLE_SIZE - 1))) as [[[k [v | c]] |] |] eqn:Hslot.
    + apply (IHidx (acc1 ++ [k])); [| exact Hsort].
      apply not_elem_of_app. split; [assumption |].
      rewrite not_elem_of_cons. split; [| apply not_elem_of_nil].
      intros Heq. symmetry in Heq. revert Heq. eapply slot_ok_key.
      apply (Hok _ _ Hslot). destruct Hex as [-> | [-> _]]; congruence.
    + destruct (sort_keys_aux fuel c acc1) as [acc2 | e |] eqn:Hrec.
      * apply (IHidx acc2); [| exact Hsort].
        apply (IH None c acc1 acc2); [| left; reflexivity | assumption | assumption].
        eapply slot_ok_tab_inv. apply (Hok _ _ Hslot).
        destruct Hex as [-> | [-> _]]; congruence.
      * rewrite sort_fold_fail in Hsort by discriminate. discriminate.
      * rewrite sort_fold_fail in Hsort by discriminate. discriminate.
    + apply (IHidx acc1); assumption.
    + rewrite sort_fold_fail in Hsort by discriminate. discriminate.
Qed.

Lemma reachable_root_inv t : reachable t -> root_inv t.
Proof.
  induction 1; [apply root_inv_init | eapply root_inv_set | eapply root_inv_del];
    eassumption.
Qed.

(** C10.  In every table built by the operations the empty string is
    a key like any other for [__setitem__], [__getitem__] and
    [__contains__]: it is stored in slot 26 of the root and found there.
    [sort_keys] never returns it: if the shared accumulator does not hold
    it before a call, the returned list does not hold it. *)
Theorem empty_key (t : IHT V) (value : V) (fuel : nat) :
  reachable t -> 1 <= fuel ->
  exists t',
    __setitem__ fuel t "" value = Ok t' /\
    array t' !! 26 = Some (Some ("", Val value)) /\
    __getitem__ fuel t' "" = Ok value /\
    __contains__ fuel t' "" = Ok true /\
    forall fuel' default_list l,
      "" ∉ default_list -> sort_keys fuel' default_list t' = Ok l -> "" ∉ l.
Proof.
  intros Hreach Hfuel. destruct fuel as [| fuel]; [lia |].
  pose proof (reachable_root_inv _ Hreach) as Hinv.
  assert (H26 : hash t "" = 26) by (apply hash_root_last; [apply Hinv | reflexivity]).
  assert (exists t', __setitem__ (S fuel) t "" value = Ok t' /\
                     exists d, t' = with_slot (add_count t d) 26 (Some ("", Val value)))
    as (t' & Hset & d & Ht').
  { unfold __setitem__. simpl. rewrite H26.
    destruct (root_last _ Hinv) as [Hl | [v0 Hl]]; rewrite Hl; simpl;
      eexists; (split; [reflexivity |]);
      [exists 1%Z | exists 0%Z; rewrite add_count_0]; reflexivity. }
  exists t'. split; [exact Hset |].
  assert (Hinv' : root_inv t') by (eapply root_inv_set; eassumption).
  assert (Hslot : array t' !! 26 = Some (Some ("", Val value))).
  { subst t'. rewrite array_with_slot. apply list_lookup_insert_eq.
    rewrite (root_length _ Hinv). unfold TABLE_SIZE. lia. }
  assert (H26' : hash t' "" = 26) by (apply hash_root_last; [apply Hinv' | reflexivity]).
  assert (Hget : __getitem__ (S fuel) t' "" = Ok value).
  { unfold __getitem__. simpl. rewrite H26', Hslot. reflexivity. }
  split; [exact Hslot |]. split; [exact Hget |].
  split; [unfold __contains__; rewrite Hget; reflexivity |].
  intros fuel' dl l Hdl Hsort.
  apply (sort_keys_aux_nonempty fuel' (Some 26) t' dl l); try assumption.
  - apply Hinv'.
  - right. split; [reflexivity | apply Hinv'].
Qed.
Lemma sort_keys_aux_prepend fuel : forall t (acc pre : list string),
  sort_keys_aux fuel t (acc ++ pre) = prepend acc (sort_keys_aux fuel t pre).
Proof.
  induction fuel as [| fuel IH]; intros t acc pre; [reflexivity |].
  cbn [sort_keys_aux].
  destruct (array t !! (TABLE_SIZE - 1)) as [last |]; [| reflexivity].
  match goal with
  | |- foldl _ (Ok ?a) _ = prepend _ (foldl _ (Ok ?b) _) =>
      replace a with (acc ++ b)
        by (destruct last as [[k ?] |]; [destruct (negb _) |];
            rewrite ?app_assoc; reflexivity);
      generalize b as y
  end.
  generalize (seq 97 26) as idx.
  induction idx as [| i idx IHidx]; intros y; cbn [foldl]; [reflexivity |].
  change (Ok (acc ++ y) ≫= (fun acc0 => sort_step (sort_keys_aux fuel) t acc0 i))
    with (sort_step (sort_keys_aux fuel) t (acc ++ y) i).
  change (Ok y ≫= (fun acc0 => sort_step (sort_keys_aux fuel) t acc0 i))
    with (sort_step (sort_keys_aux fuel) t y i).
  unfold sort_step at 2 4.
  destruct (array t !! (i mod (TABLE_SIZE - 1))) as [[[k [v | c]] |] |].
  - rewrite <- app_assoc. apply IHidx.
  - rewrite IH. destruct (sort_keys_aux fuel c y) as [z | e |]; cbn [prepend].
    + apply IHidx.
    + unfold prepend. rewrite !sort_fold_fail by discriminate. reflexivity.
    + unfold prepend. rewrite !sort_fold_fail by discriminate. reflexivity.
  - apply IHidx.
  - rewrite !sort_fold_fail by discriminate. reflexivity.
Qed.

Lemma sort_keys_repeated fuel (t : IHT V) l :
  sort_keys fuel [] t = Ok l -> sort_keys fuel l t = Ok (l ++ l).
Proof.
  unfold sort_keys. intros H.
  rewrite <- (app_nil_r l) at 1. rewrite sort_keys_aux_prepend, H. reflexivity.
Qed.
End WithValue.


(** C5, at the failing input.  With the four words stored, the first
    call of [sort_keys] returns them in order, and the second call, on
    the unchanged table, returns that list followed by the four words
    again: the accumulator of the second call is the list the first call
    filled. *)
Theorem sort_keys_second_call (fuel : nat) :
  4 <= fuel ->
  exists t l1 l2,
    insert_all fuel four_words = Ok t /\
    sort_keys fuel [] t = Ok l1 /\ l1 = ["ant"; "apple"; "cat"; "dog"] /\
    sort_keys fuel l1 t = Ok l2 /\
    l2 = ["ant"; "apple"; "cat"; "dog"; "ant"; "apple"; "cat"; "dog"].
Proof.
  intros H. destruct fuel as [|[|[|[|fuel]]]]; [lia | lia | lia | lia |].
  do 3 eexists. repeat split; vm_compute; reflexivity.
Qed.

(** C8, at the failing input.  Setting "cat" again in the table that
    holds "cat" and "car" keeps the two terminal pairs and raises the
    count of the root from 2 to 3. *)
Theorem overwrite_changes_count (fuel : nat) :
  3 <= fuel ->
  exists t2 t3 : IHT nat,
    insert_all fuel [("cat", 1); ("car", 2)] = Ok t2 /\
    __setitem__ fuel t2 "cat" 3 = Ok t3 /\
    terminals t2 = [("car", 2); ("cat", 1)] /\ count t2 = 2%Z /\
    terminals t3 = [("car", 2); ("cat", 3)] /\ count t3 = 3%Z.
Proof.
  intros H. destruct fuel as [|[|[|fuel]]]; [lia | lia | lia |].
  do 2 eexists. repeat split; vm_compute; reflexivity.
Qed.

Lemma cat_car_witness :
  3 <= 3 /\
  exists t1 t2 t3 : IHT nat,
    __setitem__ 3 (init 0) "cat" 1 = Ok t1 /\
    __setitem__ 3 t1 "car" 2 = Ok t2 /\
    t1 = node [(21, ("cat", Val 1))] 1 0 /\
    t2 = node [(21, ("c", Tab (node [(19, ("ca", Tab (node
                 [(10, ("car", Val 2)); (12, ("cat", Val 1))] 2 2)))] 2 1)))] 2 0 /\
    __getitem__ 3 t2 "cat" = Ok 1 /\
    __getitem__ 3 t2 "car" = Ok 2 /\
    __delitem__ 3 t2 "car" = Ok t3 /\
    t3 = t1 /\
    get_location 3 t3 "cat" = Ok [21] /\
    __getitem__ 3 t3 "cat" = Ok 1 /\
    __contains__ 3 t3 "car" = Ok false.
Proof. split; [lia | apply (cat_car 3); lia]. Defined.

Lemma empty_key_witness :
  reachable (@init nat 0) /\ 1 <= 1 /\
  exists t',
    __setitem__ 1 (init 0) "" 7 = Ok t' /\
    array t' !! 26 = Some (Some ("", Val 7)) /\
    __getitem__ 1 t' "" = Ok 7 /\
    __contains__ 1 t' "" = Ok true /\
    forall fuel' default_list l,
      "" ∉ default_list -> sort_keys fuel' default_list t' = Ok l -> "" ∉ l.
Proof.
  split; [apply reach_init |]. split; [lia |].
  apply (empty_key (init 0) 7 1); [apply reach_init | lia].
Defined.

Lemma sort_keys_second_call_witness :
  4 <= 4 /\
  exists t l1 l2,
    insert_all 4 four_words = Ok t /\
    sort_keys 4 [] t = Ok l1 /\ l1 = ["ant"; "apple"; "cat"; "dog"] /\
    sort_keys 4 l1 t = Ok l2 /\
    l2 = ["ant"; "apple"; "cat"; "dog"; "ant"; "apple"; "cat"; "dog"].
Proof. split; [lia | apply (sort_keys_second_call 4); lia]. Defined.

Lemma overwrite_changes_count_witness :
  3 <= 3 /\
  exists t2 t3 : IHT nat,
    insert_all 3 [("cat", 1); ("car", 2)] = Ok t2 /\
    __setitem__ 3 t2 "cat" 3 = Ok t3 /\
    terminals t2 = [("car", 2); ("cat", 1)] /\ count t2 = 2%Z /\
    terminals t3 = [("car", 2); ("cat", 3)] /\ count t3 = 3%Z.
Proof. split; [lia | apply (overwrite_changes_count 3); lia]. Defined.

End TrieFacts.

(** ** Further properties of the trie *)

Module TrieMore.
Import InfiniteHashTable TrieSpec.
Section WithValue.
Context {V : Type}.
Implicit Types (t : IHT V) (x : entry V).

Lemma hash_lt t key : hash t key < TABLE_SIZE.
Proof.
  unfold hash. destruct (_ <? _).
  - pose proof (Nat.mod_upper_bound (ord_at key (level t)) (TABLE_SIZE - 1)
                  ltac:(discriminate)) as H.
    change (TABLE_SIZE - 1) with 26 in *. change TABLE_SIZE with 27. lia.
  - change (TABLE_SIZE - 1) with 26. change TABLE_SIZE with 27. lia.
Qed.

Lemma hash_level t t' key : level t = level t' -> hash t key = hash t' key.
Proof. unfold hash. intros ->. reflexivity. Qed.

(** A key whose bucket is empty: it is stored there, found again, and
    deleting it gives back the table as it was. *)
Theorem insert_lookup_delete t key value fuel :
  array t !! hash t key = Some None -> 1 <= fuel ->
  exists t1,
    __setitem__ fuel t key value = Ok t1 /\
    array t1 !! hash t key = Some (Some (key, Val value)) /\
    count t1 = (count t + 1)%Z /\
    __getitem__ fuel t1 key = Ok value /\
    __contains__ fuel t1 key = Ok true /\
    get_location fuel t1 key = Ok [hash t key] /\
    __delitem__ fuel t1 key = Ok t.
Proof.
  intros Hslot Hfuel. destruct fuel as [| fuel]; [lia |].
  set (p := hash t key) in *.
  set (t1 := with_slot (add_count t 1) p (Some (key, Val value))).
  assert (Hp : p < length (array t)) by (eapply lookup_lt_Some; eassumption).
  assert (Hh1 : hash t1 key = p) by (apply hash_level; reflexivity).
  assert (Hs1 : array t1 !! p = Some (Some (key, Val value))).
  { apply list_lookup_insert_eq. exact Hp. }
  assert (Hget : get_item_aux (S fuel) [] t1 key 0 = ([p], Ok value)).
  { cbn [get_item_aux]. rewrite Hh1, Hs1, String.eqb_refl. reflexivity. }
  exists t1. split.
  { unfold __setitem__. cbn [set_item_aux]. fold p. rewrite Hslot. reflexivity. }
  split; [exact Hs1 |]. split; [reflexivity |].
  split; [unfold __getitem__; rewrite Hget; reflexivity |].
  split; [unfold __contains__, __getitem__; rewrite Hget; reflexivity |].
  split; [unfold get_location; rewrite Hget; reflexivity |].
  unfold __delitem__, get_location. rewrite Hget.
  change (Ok [p] ≫= _) with
    (delete_item_aux (S fuel) true t1 [p] 0 (Z.of_nat (length [p]) - 1) (length [p])
       ≫= (fun '(self, _) => Ok self)).
  cbn [delete_item_aux length lookup list_lookup]. rewrite Hs1.
  change (Z.of_nat 1 - 1 =? 0)%Z with true.
  change (Z.of_nat 0 =? Z.of_nat 1 - 1)%Z with true. cbn [andb negb].
  assert (Hback : add_count (with_slot t1 p None) (-1) = t).
  { destruct t as [arr c l]. unfold t1, add_count, with_slot. cbn [array count level].
    f_equal; [| lia].
    rewrite list_insert_insert_eq. apply list_insert_id. exact Hslot. }
  rewrite Hback.
  destruct (count t <=? 1)%Z; [destruct (first_item (array t)) |]; reflexivity.
Qed.

(** A key whose bucket is empty is reported missing by every lookup. *)
Theorem lookup_miss t key fuel :
  array t !! hash t key = Some None -> 1 <= fuel ->
  __getitem__ fuel t key = Raise KeyError /\
  __contains__ fuel t key = Ok false /\
  get_location fuel t key = Raise KeyError /\
  __delitem__ fuel t key = Raise KeyError.
Proof.
  intros Hslot Hfuel. destruct fuel as [| fuel]; [lia |].
  assert (Hget : get_item_aux (S fuel) [] t key 0 = ([], Raise KeyError)).
  { cbn [get_item_aux]. rewrite Hslot. reflexivity. }
  unfold __contains__, __delitem__, __getitem__, get_location. rewrite Hget.
  repeat split; reflexivity.
Qed.

(** The bucket already holds the key, as a stored pair or as the label of
    a child node: the pair is stored in its place and the count is kept.
    A child node under that label is dropped with all it holds. *)
Theorem overwrite_in_place t key x value fuel :
  array t !! hash t key = Some (Some (key, x)) -> 1 <= fuel ->
  exists t1,
    __setitem__ fuel t key value = Ok t1 /\
    t1 = with_slot t (hash t key) (Some (key, Val value)) /\
    count t1 = count t /\
    __getitem__ fuel t1 key = Ok value.
Proof.
  intros Hslot Hfuel. destruct fuel as [| fuel]; [lia |].
  set (p := hash t key) in *.
  set (t1 := with_slot t p (Some (key, Val value))).
  assert (Hp : p < length (array t)) by (eapply lookup_lt_Some; eassumption).
  assert (Hh1 : hash t1 key = p) by (apply hash_level; reflexivity).
  assert (Hs1 : array t1 !! p = Some (Some (key, Val value))).
  { apply list_lookup_insert_eq. exact Hp. }
  exists t1. split.
  { unfold __setitem__. cbn [set_item_aux]. fold p.
    rewrite Hslot, String.eqb_refl. reflexivity. }
  split; [reflexivity |]. split; [reflexivity |].
  unfold __getitem__. cbn [get_item_aux].
  rewrite Hh1, Hs1, String.eqb_refl. reflexivity.
Qed.

(** What [__setitem__] leaves alone: the level and the length of the
    array, every slot but the bucket of the key; the count grows by one
    or stays. *)
Theorem set_frame fuel t key value t' :
  __setitem__ fuel t key value = Ok t' ->
  level t' = level t /\
  length (array t') = length (array t) /\
  (forall i, i <> hash t key -> array t' !! i = array t !! i) /\
  (count t' = count t \/ count t' = (count t + 1)%Z).
Proof.
  unfold __setitem__. generalize 0 as lvl. intros lvl Hset.
  assert (exists d s, t' = with_slot (add_count t d) (hash t key) s /\
                      (d = 0 \/ d = 1)%Z) as (d & s & -> & Hd).
  { destruct fuel as [| fuel]; [discriminate |]. cbn [set_item_aux] in Hset.
    destruct (array t !! hash t key) as [[[k x] |] |]; [| | discriminate].
    - destruct (String.eqb k key).
      + injection Hset as <-. exists 0%Z. eexists. split; [| left; reflexivity].
        destruct t. unfold with_slot, add_count. cbn [array count level].
        f_equal. lia.
      + destruct x as [v0 | t0].
        * destruct (set_item_aux fuel _ k v0 _) as [c1 | |]; try discriminate.
          cbn [mbind result_bind bind] in Hset.
          destruct (set_item_aux fuel c1 key value _) as [c2 | |]; try discriminate.
          injection Hset as <-. eauto.
        * destruct (set_item_aux fuel t0 key value _) as [c | |]; try discriminate.
          injection Hset as <-. eauto.
    - injection Hset as <-. eauto. }
  split; [reflexivity |].
  split; [apply length_insert |].
  split; [intros i Hi; apply list_lookup_insert_ne; congruence |].
  unfold with_slot, add_count. cbn [count].
  destruct Hd as [-> | ->]; [left; lia | right; reflexivity].
Qed.

(** Two different keys that fall in the same bucket at every level can
    not both be stored: once the first is a stored pair in the bucket of
    the second, setting the second recurses without end, whatever the
    fuel. *)
Theorem colliding_keys_never_stored fuel : forall t lvl k1 (v1 : V) k2 v2,
  k1 <> k2 ->
  (forall l, hash (@init V l) k1 = hash (@init V l) k2) ->
  array t !! hash t k2 = Some (Some (k1, Val v1)) ->
  set_item_aux fuel t k2 v2 lvl = OutOfFuel.
Proof.
  induction fuel as [| fuel IH]; intros t lvl k1 v1 k2 v2 Hne Hcol Hslot;
    [reflexivity |].
  cbn [set_item_aux]. rewrite Hslot.
  apply String.eqb_neq in Hne as Hneb. rewrite Hneb.
  destruct fuel as [| fuel]; [reflexivity |].
  set (child := with_slot (add_count (init (lvl + 1)) 1)
                  (hash (@init V (lvl + 1)) k1) (Some (k1, Val v1))).
  assert (Hc : set_item_aux (S fuel) (init (lvl + 1)) k1 v1 (lvl + 1) = Ok child).
  { cbn [set_item_aux].
    replace (array (init (lvl + 1)) !! hash (@init V (lvl + 1)) k1)
      with (Some (@None (string * entry V))); [reflexivity |].
    symmetry. apply lookup_replicate. split; [reflexivity | apply hash_lt]. }
  rewrite Hc. cbn [mbind result_bind bind].
  rewrite (IH child (lvl + 1) k1 v1 k2 v2 Hne Hcol); [reflexivity |].
  replace (hash child k2) with (hash (@init V (lvl + 1)) k1)
    by (rewrite Hcol; apply hash_level; reflexivity).
  apply list_lookup_insert_eq.
  change (length (array (add_count (init (lvl + 1)) 1))) with TABLE_SIZE.
  apply hash_lt.
Qed.


(** On any table, a second call of [sort_keys] starts from the list the
    first call returned, and returns it twice over. *)
Theorem sort_keys_twice fuel t l :
  sort_keys fuel [] t = Ok l -> sort_keys fuel l t = Ok (l ++ l).
Proof.
  unfold sort_keys. intros H.
  rewrite <- (app_nil_r l) at 1.
  rewrite TrieFacts.sort_keys_aux_prepend, H. reflexivity.
Qed.

End WithValue.

Lemma insert_lookup_delete_witness :
  array (@init nat 0) !! hash (@init nat 0) "cat" = Some None /\ 1 <= 1 /\
  exists t1,
    __setitem__ 1 (init 0) "cat" 5 = Ok t1 /\
    array t1 !! hash (@init nat 0) "cat" = Some (Some ("cat", Val 5)) /\
    count t1 = (count (@init nat 0) + 1)%Z /\
    __getitem__ 1 t1 "cat" = Ok 5 /\
    __contains__ 1 t1 "cat" = Ok true /\
    get_location 1 t1 "cat" = Ok [hash (@init nat 0) "cat"] /\
    __delitem__ 1 t1 "cat" = Ok (init 0).
Proof.
  split; [reflexivity |]. split; [lia |].
  apply (insert_lookup_delete (init 0) "cat" 5 1); [reflexivity | lia].
Defined.

Lemma lookup_miss_witness :
  array (@init nat 0) !! hash (@init nat 0) "dog" = Some None /\ 1 <= 1 /\
  __getitem__ 1 (@init nat 0) "dog" = Raise KeyError /\
  __contains__ 1 (@init nat 0) "dog" = Ok false /\
  get_location 1 (@init nat 0) "dog" = Raise KeyError /\
  __delitem__ 1 (@init nat 0) "dog" = Raise KeyError.
Proof.
  split; [reflexivity |]. split; [lia |].
  apply (lookup_miss (init 0) "dog" 1); [reflexivity | lia].
Defined.

Lemma overwrite_in_place_witness :
  array one_word !! hash one_word "cat" = Some (Some ("cat", Val 1)) /\ 1 <= 1 /\
  exists t1,
    __setitem__ 1 one_word "cat" 9 = Ok t1 /\
    t1 = with_slot one_word (hash one_word "cat") (Some ("cat", Val 9)) /\
    count t1 = count one_word /\
    __getitem__ 1 t1 "cat" = Ok 9.
Proof.
  split; [reflexivity |]. split; [lia |].
  apply (overwrite_in_place one_word "cat" (Val 1) 9 1); [reflexivity | lia].
Defined.

Lemma set_frame_witness :
  __setitem__ 1 (init 0) "cat" 1 = Ok one_word /\
  level one_word = level (@init nat 0) /\
  length (array one_word) = length (array (@init nat 0)) /\
  (forall i, i <> hash (@init nat 0) "cat" ->
     array one_word !! i = array (@init nat 0) !! i) /\
  (count one_word = count (@init nat 0) \/
   count one_word = (count (@init nat 0) + 1)%Z).
Proof.
  split; [reflexivity |].
  apply (set_frame 1 (init 0) "cat" 1 one_word). reflexivity.
Defined.

Lemma colliding_keys_never_stored_witness :
  "a" <> "G" /\
  (forall l, hash (@init nat l) "a" = hash (@init nat l) "G") /\
  array one_letter !! hash one_letter "G" = Some (Some ("a", Val 1)) /\
  __setitem__ 1000 one_letter "G" 2 = OutOfFuel.
Proof.
  assert (H1 : "a" <> "G") by discriminate.
  assert (H2 : forall l, hash (@init nat l) "a" = hash (@init nat l) "G")
    by (intros [| l]; reflexivity).
  split; [exact H1 |]. split; [exact H2 |]. split; [reflexivity |].
  apply (colliding_keys_never_stored 1000 one_letter 0 "a" 1 "G" 2 H1 H2). reflexivity.
Defined.

Lemma sort_keys_twice_witness :
  sort_keys 1 [] one_word = Ok ["cat"] /\
  sort_keys 1 ["cat"] one_word = Ok (["cat"] ++ ["cat"]).
Proof.
  split; [reflexivity |].
  apply (sort_keys_twice 1 one_word ["cat"]). reflexivity.
Defined.

End TrieMore.

(** ** Properties of the two-level table *)

Module TableMore.
Import DoubleKeyTable TableSpec.

Lemma hash_loop_range table_size key : forall value a r,
  (0 <= value < table_size)%Z ->
  hash_loop table_size key value a = Ok r -> (0 <= r < table_size)%Z.
Proof.
  induction key as [| c key IH]; intros value a r Hv Hr; cbn [hash_loop] in Hr.
  - injection Hr as <-. exact Hv.
  - destruct (table_size =? 0)%Z; [discriminate |].
    destruct (table_size - 1 =? 0)%Z; [discriminate |].
    eapply IH; [| exact Hr]. apply Z.mod_pos_bound. lia.
Qed.

Lemma hash_string_range n key p :
  hash_string n key = Ok p -> 0 < n -> p < n.
Proof.
  unfold hash_string. intros H Hn.
  destruct (hash_loop (Z.of_nat n) key 0 31417) as [r | |] eqn:Hr; try discriminate.
  injection H as <-.
  apply hash_loop_range in Hr; lia.
Qed.

Lemma hash_string_one key : key <> "" -> hash_string 1 key = Raise ZeroDivisionError.
Proof. destruct key; [congruence | reflexivity]. Qed.

Lemma probe_loop_found {X} (arr : list (option (string * X))) key :
  forall remaining position p,
    probe_loop arr key false remaining position = Ok p -> 0 < remaining ->
    exists x, arr !! p = Some (Some (key, x)).
Proof.
  induction remaining as [| r IH]; intros position p Hp Hr; [lia |].
  cbn [probe_loop] in Hp.
  destruct (arr !! position) as [[[k x] |] |] eqn:Hslot; try discriminate.
  destruct (String.eqb k key) eqn:Hk.
  - injection Hp as <-. apply String.eqb_eq in Hk as ->. eauto.
  - destruct (r =? 0) eqn:Hr0; [discriminate |].
    apply Nat.eqb_neq in Hr0. eapply IH; [exact Hp | lia].
Qed.

Lemma probe_loop_spot {X} (arr : list (option (string * X))) key :
  forall remaining position p,
    probe_loop arr key true remaining position = Ok p -> 0 < remaining ->
    arr !! p = Some None \/ exists x, arr !! p = Some (Some (key, x)).
Proof.
  induction remaining as [| r IH]; intros position p Hp Hr; [lia |].
  cbn [probe_loop] in Hp.
  destruct (arr !! position) as [[[k x] |] |] eqn:Hslot; try discriminate.
  - destruct (String.eqb k key) eqn:Hk.
    + injection Hp as <-. apply String.eqb_eq in Hk as ->. eauto.
    + destruct (r =? 0) eqn:Hr0; [discriminate |].
      apply Nat.eqb_neq in Hr0. eapply IH; [exact Hp | lia].
  - injection Hp as <-. left. exact Hslot.
Qed.

(** After the pair is stored where the insert probe stopped, the lookup
    probe stops there too. *)
Lemma probe_loop_after_store {X} (arr : list (option (string * X))) key (x : X) p :
  forall remaining position,
    probe_loop arr key true remaining position = Ok p -> 0 < remaining ->
    probe_loop (<[p := Some (key, x)]> arr) key false remaining position = Ok p.
Proof.
  induction remaining as [| r IH]; intros position Hp Hr; [lia |].
  cbn [probe_loop] in *.
  destruct (arr !! position) as [slot |] eqn:Hslot; [| discriminate].
  assert (Hlt : position < length arr) by (eapply lookup_lt_Some; eassumption).
  destruct (decide (position = p)) as [-> | Hne].
  - rewrite list_lookup_insert_eq, String.eqb_refl by exact Hlt. reflexivity.
  - rewrite list_lookup_insert_ne, Hslot by congruence.
    destruct slot as [[k y] |]; [| congruence].
    destruct (String.eqb k key); [congruence |].
    destruct (r =? 0) eqn:Hr0; [discriminate |].
    apply Nat.eqb_neq in Hr0. rewrite length_insert. apply IH; [exact Hp | lia].
Qed.

(** Filling an empty slot does not disturb a lookup that succeeds. *)
Lemma probe_loop_fill {X} (arr : list (option (string * X))) key q s p :
  arr !! q = Some None ->
  forall remaining position,
    probe_loop arr key false remaining position = Ok p ->
    probe_loop (<[q := s]> arr) key false remaining position = Ok p.
Proof.
  intros Hq. induction remaining as [| r IH]; intros position Hp; [exact Hp |].
  cbn [probe_loop] in *.
  destruct (arr !! position) as [[[k y] |] |] eqn:Hslot; try discriminate.
  rewrite list_lookup_insert_ne, Hslot by congruence.
  destruct (String.eqb k key); [exact Hp |].
  destruct (r =? 0); [discriminate |].
  rewrite length_insert. apply IH. exact Hp.
Qed.

(** Replacing what is stored with a key, under the same key, changes no
    probe. *)
Lemma probe_loop_payload {X} (arr : list (option (string * X))) key q kq y y' ins :
  arr !! q = Some (Some (kq, y)) ->
  forall remaining position,
    probe_loop (<[q := Some (kq, y')]> arr) key ins remaining position
    = probe_loop arr key ins remaining position.
Proof.
  intros Hq. induction remaining as [| r IH]; intros position; [reflexivity |].
  cbn [probe_loop]. rewrite length_insert.
  destruct (decide (position = q)) as [-> | Hne].
  - rewrite list_lookup_insert_eq, Hq by (eapply lookup_lt_Some; eassumption).
    destruct (String.eqb kq key); [reflexivity |].
    destruct (r =? 0); [reflexivity | apply IH].
  - rewrite list_lookup_insert_ne by congruence.
    destruct (arr !! position) as [[[k z] |] |]; try reflexivity.
    destruct (String.eqb k key); [reflexivity |].
    destruct (r =? 0); [reflexivity | apply IH].
Qed.

Section WithValue.
Context {V : Type}.
Implicit Types (self s : DKT V) (sub_table : LinearProbeTable V).

(** [hash1] returns a position of the array; in a table of capacity one
    it raises [ZeroDivisionError] for every key but the empty one. *)
Theorem hash1_range self key :
  (forall p, hash1 self key = Ok p -> 0 < table_size self -> p < table_size self) /\
  (table_size self = 1 -> key <> "" -> hash1 self key = Raise ZeroDivisionError).
Proof.
  unfold hash1. split.
  - intros p. apply hash_string_range.
  - intros ->. apply hash_string_one.
Qed.

Lemma hash2_length key (t t' : LinearProbeTable V) :
  length (lp_array t) = length (lp_array t') -> hash2 key t = hash2 key t'.
Proof. unfold hash2. intros ->. reflexivity. Qed.

Lemma lp_store_inv sub_table key data t1 :
  lp_store sub_table key data = Ok t1 ->
  exists h p slot,
    hash2 key sub_table = Ok h /\
    probe_loop (lp_array sub_table) key true (length (lp_array sub_table)) h = Ok p /\
    lp_array sub_table !! p = Some slot /\
    lp_array t1 = <[p := Some (key, data)]> (lp_array sub_table) /\
    lp_count t1 = (lp_count sub_table + if slot is None then 1 else 0)%Z /\
    lp_sizes t1 = lp_sizes sub_table /\
    lp_size_index t1 = lp_size_index sub_table.
Proof.
  unfold lp_store. intros H.
  destruct (hash2 key sub_table) as [h | |] eqn:Hh; try discriminate.
  cbn [mbind result_bind bind] in H.
  destruct (probe_loop _ key true _ h) as [p | |] eqn:Hp; try discriminate.
  cbn [mbind result_bind bind] in H.
  destruct (lp_array sub_table !! p) as [slot |] eqn:Hslot; [| discriminate].
  injection H as <-. exists h, p, slot.
  repeat split; try assumption; destruct slot; cbn; try reflexivity; lia.
Qed.

(** With room for one more pair the inner table does not grow. *)
Lemma lp_setitem_room fuel sub_table key data t1 :
  (2 * (lp_count sub_table + 1) <= Z.of_nat (length (lp_array sub_table)))%Z ->
  lp_setitem fuel sub_table key data = Ok t1 ->
  lp_store sub_table key data = Ok t1.
Proof.
  intros Hroom H. destruct fuel as [| fuel]; [discriminate |].
  cbn [lp_setitem] in H.
  destruct (lp_store sub_table key data) as [t |  |] eqn:Hst; try discriminate.
  cbn [mbind result_bind bind] in H.
  destruct (lp_store_inv _ _ _ _ Hst) as (h & p & slot & _ & _ & _ & Ha & Hc & _).
  replace (Z.of_nat (length (lp_array t)) <? 2 * lp_count t)%Z with false in H.
  - exact H.
  - symmetry. apply Z.ltb_ge. rewrite Ha, length_insert, Hc. destruct slot; lia.
Qed.

Lemma lp_init_inv sizes sub_table :
  lp_init sizes = Ok sub_table ->
  exists n, sizes !! 0 = Some n /\ (0 < n)%Z /\
            sub_table = mkLPT sizes 0 (ArrayR (Z.to_nat n)) 0.
Proof.
  unfold lp_init, new_array. intros H.
  destruct (sizes !! 0) as [n |]; [| discriminate].
  destruct (Z.leb_spec n 0); [discriminate |].
  injection H as <-. exists n. repeat split. assumption.
Qed.

Lemma linear_probe_insert_inv s key1 key2 s0 p1 p2 :
  _linear_probe s key1 key2 true = (s0, Ok (p1, p2)) ->
  exists h1 sub_table,
    hash1 s key1 = Ok h1 /\
    probe_loop (array s) key1 true (table_size s) h1 = Ok p1 /\
    ((array s !! p1 = Some None /\ lp_init (internal_sizes s) = Ok sub_table /\
      s0 = with_slot s p1 (Some (key1, sub_table))) \/
     (array s !! p1 = Some (Some (key1, sub_table)) /\ s0 = s)) /\
    array s0 !! p1 = Some (Some (key1, sub_table)) /\
    probe_inner p1 key2 true sub_table = Ok (p1, p2).
Proof.
  unfold _linear_probe. intros H.
  destruct (hash1 s key1) as [h1 | |] eqn:Hh; try (injection H as _ H; discriminate).
  cbn [mbind result_bind bind] in H.
  destruct (probe_loop (array s) key1 true (table_size s) h1) as [q | |] eqn:Hq;
    try (injection H as _ H; discriminate).
  destruct (array s !! q) as [slot |] eqn:Hslot; [| injection H as _ H; discriminate].
  assert (Hlt : q < length (array s)) by (eapply lookup_lt_Some; eassumption).
  assert (Hpos : 0 < table_size s) by (unfold table_size; lia).
  destruct slot as [[k sub_table] |].
  - injection H as <- H.
    assert (q = p1) as ->.
    { unfold probe_inner in H.
      destruct (hash2 key2 sub_table); try discriminate. cbn [mbind result_bind bind] in H.
      destruct (probe_loop _ key2 true _ _); try discriminate.
      injection H as -> _. reflexivity. }
    destruct (probe_loop_spot _ _ _ _ _ Hq Hpos) as [Hn | [x Hx]]; [congruence |].
    assert (k = key1) as -> by congruence.
    exists h1, sub_table. repeat split; try assumption. right. split; [assumption | reflexivity].
  - destruct (lp_init (internal_sizes s)) as [sub_table | |] eqn:Hinit;
      try (injection H as _ H; discriminate).
    injection H as <- H.
    assert (q = p1) as ->.
    { unfold probe_inner in H.
      destruct (hash2 key2 sub_table); try discriminate. cbn [mbind result_bind bind] in H.
      destruct (probe_loop _ key2 true _ _); try discriminate.
      injection H as -> _. reflexivity. }
    exists h1, sub_table. repeat split; try assumption.
    + left. repeat split; assumption.
    + apply list_lookup_insert_eq. exact Hlt.
Qed.

Lemma set_insert_inv fuel s key1 key2 data s' :
  inner_room s ->
  set_insert fuel s key1 key2 data = (s', Ok ()) ->
  exists h1 p1 sub_table t1,
    hash1 s key1 = Ok h1 /\
    probe_loop (array s) key1 true (table_size s) h1 = Ok p1 /\
    (array s !! p1 = Some None \/ array s !! p1 = Some (Some (key1, sub_table))) /\
    lp_store sub_table key2 data = Ok t1 /\
    array s' = <[p1 := Some (key1, t1)]> (array s) /\
    (count s' = count s \/ count s' = count s + 1)%Z /\
    TABLE_SIZES s' = TABLE_SIZES s /\ internal_sizes s' = internal_sizes s /\
    size_index s' = size_index s /\
    (array s !! p1 = Some None ->
     lp_init (internal_sizes s) = Ok sub_table /\ count s' = (count s + 1)%Z).
Proof.
  intros (Hr2 & Hr3) H. unfold set_insert in H.
  destruct (_linear_probe s key1 key2 true) as [s0 [[p1 p2] | e |]] eqn:Hprobe;
    try (injection H as _ H; discriminate).
  destruct (linear_probe_insert_inv _ _ _ _ _ _ Hprobe)
    as (h1 & sub_table & Hh & Hp & Hcase & Hs0 & _).
  rewrite Hs0 in H.
  destruct (lp_setitem fuel sub_table key2 data) as [t1 | |] eqn:Hset;
    try (destruct (is_empty sub_table); injection H as _ H; discriminate).
  assert (Hst : lp_store sub_table key2 data = Ok t1).
  { apply (lp_setitem_room fuel); [| exact Hset].
    destruct Hcase as [(_ & Hinit & _) | (Hslot & _)].
    - apply lp_init_inv in Hinit as (n & Hn & Hpos & ->). cbn [lp_count lp_array].
      unfold ArrayR. rewrite length_replicate. specialize (Hr3 _ Hn). lia.
    - eapply Hr2. exact Hslot. }
  exists h1, p1, sub_table, t1.
  assert (Harr : array s0 = array s \/ array s0 = <[p1 := Some (key1, sub_table)]> (array s)).
  { destruct Hcase as [(_ & _ & ->) | (_ & ->)]; [right | left]; reflexivity. }
  assert (Hsame : TABLE_SIZES s0 = TABLE_SIZES s /\ internal_sizes s0 = internal_sizes s /\
                  size_index s0 = size_index s /\ count s0 = count s).
  { destruct Hcase as [(_ & _ & ->) | (_ & ->)]; repeat split. }
  destruct Hsame as (Hts & His & Hsi & Hc).
  split; [exact Hh |]. split; [exact Hp |].
  split; [destruct Hcase as [(? & _) | (? & _)]; [left | right]; assumption |].
  split; [exact Hst |].
  assert (Hnew : array s !! p1 = Some None ->
                 lp_init (internal_sizes s) = Ok sub_table /\ is_empty sub_table = true).
  { intros Hnone. destruct Hcase as [(_ & Hinit & _) | (Hslot & _)]; [| congruence].
    split; [exact Hinit |].
    apply lp_init_inv in Hinit as (n & _ & _ & ->). reflexivity. }
  destruct (is_empty sub_table) eqn:Hemp; injection H as <-;
    (split; [cbn [array with_slot with_array add_count];
             destruct Harr as [-> | ->]; rewrite ?list_insert_insert_eq; reflexivity |]);
    (split; [cbn [count with_slot with_array add_count]; rewrite Hc; lia |]);
    (split; [assumption |]); (split; [assumption |]); (split; [assumption |]);
    intros Hnone; destruct (Hnew Hnone) as [Hi He]; (split; [exact Hi |]);
    [cbn [count with_slot with_array add_count]; rewrite Hc; reflexivity | discriminate].
Qed.

(** What [__getitem__] returns, in terms of the two probes. *)
Lemma getitem_Ok s key1 key2 value :
  __getitem__ s key1 key2 = Ok value <->
  exists h1 p1 sub_table h2 p2,
    hash1 s key1 = Ok h1 /\
    probe_loop (array s) key1 false (table_size s) h1 = Ok p1 /\
    array s !! p1 = Some (Some (key1, sub_table)) /\
    hash2 key2 sub_table = Ok h2 /\
    probe_loop (lp_array sub_table) key2 false (length (lp_array sub_table)) h2 = Ok p2 /\
    lp_array sub_table !! p2 = Some (Some (key2, value)).
Proof.
  unfold __getitem__, _linear_probe. split.
  - intros H.
    destruct (hash1 s key1) as [h1 | |] eqn:Hh; try discriminate.
    cbn [mbind result_bind bind] in H.
    destruct (probe_loop (array s) key1 false (table_size s) h1) as [p1 | |] eqn:Hp;
      try discriminate.
    destruct (array s !! p1) as [[[k sub_table] |] |] eqn:Hslot; try discriminate.
    cbn [snd] in H. unfold probe_inner in H.
    destruct (hash2 key2 sub_table) as [h2 | |] eqn:Hh2; try discriminate.
    cbn [mbind result_bind bind] in H.
    destruct (probe_loop (lp_array sub_table) key2 false _ h2) as [p2 | |] eqn:Hp2;
      try discriminate.
    cbn [mbind result_bind bind] in H. rewrite Hslot in H.
    destruct (lp_array sub_table !! p2) as [[[k2 w] |] |] eqn:Hs2; try discriminate.
    injection H as ->.
    assert (0 < table_size s).
    { apply lookup_lt_Some in Hslot. unfold table_size. lia. }
    assert (0 < length (lp_array sub_table)) by (apply lookup_lt_Some in Hs2; lia).
    destruct (probe_loop_found _ _ _ _ _ Hp ltac:(assumption)) as [x Hx].
    destruct (probe_loop_found _ _ _ _ _ Hp2 ltac:(assumption)) as [x2 Hx2].
    assert (k = key1) as -> by congruence.
    assert (k2 = key2) as -> by congruence.
    exists h1, p1, sub_table, h2, p2. repeat split; assumption.
  - intros (h1 & p1 & sub_table & h2 & p2 & Hh & Hp & Hslot & Hh2 & Hp2 & Hs2).
    rewrite Hh. cbn [mbind result_bind bind]. rewrite Hp, Hslot. cbn [snd].
    unfold probe_inner. rewrite Hh2. cbn [mbind result_bind bind]. rewrite Hp2.
    cbn [mbind result_bind bind]. rewrite Hslot, Hs2. reflexivity.
Qed.

(** With room at both levels, a pair that [__setitem__] stores is
    returned by [__getitem__], and nothing is resized. *)
Theorem set_then_get fuel s key1 key2 data s' :
  has_room s ->
  __setitem__ fuel s key1 key2 data = (s', Ok ()) ->
  __getitem__ s' key1 key2 = Ok data /\
  __contains__ s' key1 key2 = Ok true /\
  table_size s' = table_size s /\ size_index s' = size_index s.
Proof.
  intros Hroom H. destruct fuel as [| fuel]; [discriminate |].
  cbn [__setitem__] in H.
  destruct (set_insert fuel s key1 key2 data) as [s1 [[] | e |]] eqn:Hins;
    try discriminate.
  destruct (set_insert_inv _ _ _ _ _ _ (proj2 Hroom) Hins)
    as (h1 & p1 & sub_table & t1 & Hh & Hp & Hslot & Hst & Harr & Hc & _ & _ & Hsi & _).
  assert (Hsize : table_size s1 = table_size s).
  { unfold table_size. rewrite Harr. apply length_insert. }
  replace (over_half s1) with false in H.
  2:{ symmetry. unfold over_half, __len__. apply Z.ltb_ge. rewrite Hsize.
      destruct Hroom as (Hr & _). lia. }
  injection H as <-.
  assert (Hlt : p1 < length (array s)).
  { destruct Hslot as [Hs | Hs]; apply lookup_lt_Some in Hs; exact Hs. }
  assert (Hget : __getitem__ s1 key1 key2 = Ok data).
  { destruct (lp_store_inv _ _ _ _ Hst) as (h2 & p2 & slot & Hh2 & Hp2 & Hs2 & Ha & _).
    assert (Hlt2 : p2 < length (lp_array sub_table)) by (eapply lookup_lt_Some; eassumption).
    apply getitem_Ok. exists h1, p1, t1, h2, p2.
    split; [unfold hash1; rewrite Hsize; exact Hh |].
    split; [rewrite Hsize, Harr; apply probe_loop_after_store;
            [exact Hp | unfold table_size; lia] |].
    split; [rewrite Harr; apply list_lookup_insert_eq; exact Hlt |].
    split; [unfold hash2 in *; rewrite Ha, length_insert; exact Hh2 |].
    split; [rewrite Ha, length_insert; apply probe_loop_after_store; [exact Hp2 | lia] |].
    rewrite Ha. apply list_lookup_insert_eq. exact Hlt2. }
  unfold __contains__. rewrite Hget. repeat split; assumption.
Qed.

(** With room at both levels, [__setitem__] is its first part. *)
Lemma setitem_room fuel s key1 key2 data s' :
  has_room s ->
  __setitem__ fuel s key1 key2 data = (s', Ok ()) ->
  exists fuel', set_insert fuel' s key1 key2 data = (s', Ok ()).
Proof.
  intros Hroom H. destruct fuel as [| fuel]; [discriminate |].
  cbn [__setitem__] in H.
  destruct (set_insert fuel s key1 key2 data) as [s1 [[] | e |]] eqn:Hins;
    try discriminate.
  destruct (set_insert_inv _ _ _ _ _ _ (proj2 Hroom) Hins)
    as (h1 & p1 & sub_table & t1 & _ & _ & _ & _ & Harr & Hc & _).
  replace (over_half s1) with false in H.
  - injection H as <-. exists fuel. exact Hins.
  - symmetry. unfold over_half, __len__, table_size. apply Z.ltb_ge.
    rewrite Harr, length_insert. destruct Hroom as (Hr & _).
    unfold table_size in Hr. lia.
Qed.

(** With room at both levels, a pair stored under other keys keeps its
    value through a [__setitem__]. *)
Theorem set_keeps_others fuel s key1 key2 data s' k1 k2 value :
  has_room s ->
  __setitem__ fuel s key1 key2 data = (s', Ok ()) ->
  (k1, k2) <> (key1, key2) ->
  __getitem__ s k1 k2 = Ok value ->
  __getitem__ s' k1 k2 = Ok value.
Proof.
  intros Hroom Hset Hne Hget.
  destruct (setitem_room _ _ _ _ _ _ Hroom Hset) as [fuel' Hins].
  destruct (set_insert_inv _ _ _ _ _ _ (proj2 Hroom) Hins)
    as (h1 & p1 & sub_table & t1 & Hh & Hp & Hslot & Hst & Harr & _).
  destruct (lp_store_inv _ _ _ _ Hst) as (h2 & p2 & slot2 & Hh2 & Hp2 & Hs2 & Ha & _).
  apply getitem_Ok in Hget
    as (g1 & q1 & sub & g2 & q2 & Hg1 & Hq1 & Hsub & Hg2 & Hq2 & Hval).
  assert (Hsize : table_size s' = table_size s).
  { unfold table_size. rewrite Harr. apply length_insert. }
  assert (Hq1' : probe_loop (array s') k1 false (table_size s') g1 = Ok q1).
  { rewrite Hsize, Harr. destruct Hslot as [Hnone | Hsome].
    - apply probe_loop_fill; assumption.
    - rewrite (probe_loop_payload _ _ _ _ _ _ _ Hsome). exact Hq1. }
  apply getitem_Ok.
  destruct (decide (q1 = p1)) as [-> | Hq].
  - (* the same first key: the pair is in the inner table that was stored to *)
    destruct Hslot as [Hnone | Hsome]; [congruence |].
    assert (sub = sub_table /\ k1 = key1) as [-> ->] by (split; congruence).
    assert (Hk2 : k2 <> key2) by congruence.
    assert (Hq2ne : q2 <> p2).
    { intros ->. rewrite Hval in Hs2. injection Hs2 as <-.
      assert (0 < length (lp_array sub_table)) by (apply lookup_lt_Some in Hval; lia).
      destruct (probe_loop_spot _ _ _ _ _ Hp2 ltac:(assumption)) as [? | [x Hx]];
        congruence. }
    exists g1, p1, t1, g2, q2.
    split; [unfold hash1; rewrite Hsize; exact Hg1 |].
    split; [exact Hq1' |].
    split; [rewrite Harr; apply list_lookup_insert_eq; eapply lookup_lt_Some; eassumption |].
    split; [unfold hash2 in *; rewrite Ha, length_insert; exact Hg2 |].
    split.
    + rewrite Ha, length_insert. destruct slot2 as [[kk vv] |].
      * assert (0 < length (lp_array sub_table)) by (apply lookup_lt_Some in Hval; lia).
        destruct (probe_loop_spot _ _ _ _ _ Hp2 ltac:(assumption)) as [? | [x Hx]];
          [congruence |].
        assert (kk = key2) as -> by congruence.
        rewrite (probe_loop_payload _ _ _ _ _ _ _ Hs2). exact Hq2.
      * apply probe_loop_fill; assumption.
    + rewrite Ha, list_lookup_insert_ne by congruence. exact Hval.
  - exists g1, q1, sub, g2, q2.
    split; [unfold hash1; rewrite Hsize; exact Hg1 |].
    split; [exact Hq1' |].
    split; [rewrite Harr, list_lookup_insert_ne by congruence; exact Hsub |].
    repeat split; assumption.
Qed.

(** A first key whose home slot is empty is missing for every method:
    [__getitem__], [keys] and [values] raise [KeyError], [__contains__]
    returns [False], and [__delitem__] raises [KeyError] and leaves the
    table as it is. *)
Theorem missing_first_key fuel s key1 key2 h :
  hash1 s key1 = Ok h -> array s !! h = Some None ->
  __getitem__ s key1 key2 = Raise KeyError /\
  __contains__ s key1 key2 = Ok false /\
  keys s (Some key1) = Raise KeyError /\
  values s (Some key1) = Raise KeyError /\
  __delitem__ fuel s key1 key2 = (s, Raise KeyError).
Proof.
  intros Hh Hslot.
  assert (Hn : exists n, table_size s = S n).
  { apply lookup_lt_Some in Hslot. unfold table_size.
    destruct (length (array s)); [lia | eauto]. }
  destruct Hn as [n Hn].
  assert (Hp : probe_loop (array s) key1 false (table_size s) h = Raise KeyError).
  { rewrite Hn. cbn [probe_loop]. rewrite Hslot. reflexivity. }
  assert (Hlp : _linear_probe s key1 key2 false = (s, Raise KeyError)).
  { unfold _linear_probe. rewrite Hh. cbn [mbind result_bind bind]. rewrite Hp.
    reflexivity. }
  assert (Hget : __getitem__ s key1 key2 = Raise KeyError).
  { unfold __getitem__. rewrite Hlp. reflexivity. }
  split; [exact Hget |].
  split; [unfold __contains__; rewrite Hget; reflexivity |].
  split; [unfold keys, probe_top; rewrite Hh; cbn [mbind result_bind bind];
          rewrite Hp; reflexivity |].
  split; [unfold values, probe_top; rewrite Hh; cbn [mbind result_bind bind];
          rewrite Hp; reflexivity |].
  unfold __delitem__. rewrite Hlp. reflexivity.
Qed.

Lemma elem_of_items {X} (arr : list (option (string * X))) i x :
  arr !! i = Some (Some x) -> x ∈ items arr.
Proof.
  intros H. unfold items. apply list_elem_of_omap. exists (Some x).
  split; [eapply list_elem_of_lookup_2; eassumption | reflexivity].
Qed.

(** With room at both levels, what [__setitem__] stores is listed: the
    first key by [keys()], the second key by [keys(key1)], the value by
    [values(key1)] and by [values()]. *)
Theorem set_then_listed fuel s key1 key2 data s' :
  has_room s ->
  __setitem__ fuel s key1 key2 data = (s', Ok ()) ->
  (exists l, keys s' None = Ok l /\ key1 ∈ l) /\
  (exists l, keys s' (Some key1) = Ok l /\ key2 ∈ l) /\
  (exists l, values s' (Some key1) = Ok l /\ data ∈ l) /\
  (exists l, values s' None = Ok l /\ data ∈ l).
Proof.
  intros Hroom Hset.
  destruct (setitem_room _ _ _ _ _ _ Hroom Hset) as [fuel' Hins].
  destruct (set_insert_inv _ _ _ _ _ _ (proj2 Hroom) Hins)
    as (h1 & p1 & sub_table & t1 & Hh & Hp & Hslot & Hst & Harr & _).
  destruct (lp_store_inv _ _ _ _ Hst) as (h2 & p2 & slot2 & _ & _ & Hs2 & Ha & _).
  assert (Hlt : p1 < length (array s)).
  { destruct Hslot as [Hs | Hs]; apply lookup_lt_Some in Hs; exact Hs. }
  assert (Hs1 : array s' !! p1 = Some (Some (key1, t1))).
  { rewrite Harr. apply list_lookup_insert_eq. exact Hlt. }
  assert (Hs2' : lp_array t1 !! p2 = Some (Some (key2, data))).
  { rewrite Ha. apply list_lookup_insert_eq. eapply lookup_lt_Some. eassumption. }
  assert (Hsize : table_size s' = table_size s).
  { unfold table_size. rewrite Harr. apply length_insert. }
  assert (Htop : probe_top s' key1 = Ok p1).
  { unfold probe_top, hash1. rewrite Hsize. fold (hash1 s key1). rewrite Hh.
    cbn [mbind result_bind bind]. rewrite Harr.
    apply probe_loop_after_store; [exact Hp | unfold table_size; lia]. }
  pose proof (elem_of_items _ _ _ Hs1) as Hin1.
  pose proof (elem_of_items _ _ _ Hs2') as Hin2.
  split; [eexists; split; [reflexivity |] |].
  { apply list_elem_of_fmap. exists (key1, t1). split; [reflexivity | exact Hin1]. }
  split; [eexists; split;
          [unfold keys; rewrite Htop; cbn [mbind result_bind bind]; rewrite Hs1;
           reflexivity |] |].
  { apply list_elem_of_fmap. exists (key2, data). split; [reflexivity | exact Hin2]. }
  split; [eexists; split;
          [unfold values; rewrite Htop; cbn [mbind result_bind bind]; rewrite Hs1;
           reflexivity |] |].
  { apply list_elem_of_fmap. exists (key2, data). split; [reflexivity | exact Hin2]. }
  eexists. split; [reflexivity |].
  apply list_elem_of_In, in_flat_map. exists (key1, t1).
  split; [apply list_elem_of_In; exact Hin1 |].
  apply list_elem_of_In, list_elem_of_fmap. exists (key2, data).
  split; [reflexivity | exact Hin2].
Qed.

(** A pair under a new first key whose home slot and the slot after it
    are empty: with room at both levels, [__setitem__] then [__delitem__]
    give back the table there was. *)
Theorem set_then_delete fuel fuel' s key1 key2 data s1 h :
  has_room s ->
  hash1 s key1 = Ok h -> array s !! h = Some None ->
  array s !! ((h + 1) mod table_size s) = Some None ->
  __setitem__ fuel s key1 key2 data = (s1, Ok ()) -> 1 <= fuel' ->
  __delitem__ fuel' s1 key1 key2 = (s, Ok ()).
Proof.
  intros Hroom Hh Hhome Hnext Hset Hfuel.
  destruct (setitem_room _ _ _ _ _ _ Hroom Hset) as [f Hins].
  destruct (set_insert_inv _ _ _ _ _ _ (proj2 Hroom) Hins)
    as (h1 & p1 & sub_table & t1 & Hh1 & Hp & Hslot & Hst & Harr & _ & Hts & His & Hsi & Hnew).
  assert (h1 = h) as -> by congruence.
  assert (Hlt : h < length (array s)) by (eapply lookup_lt_Some; eassumption).
  assert (p1 = h) as ->.
  { unfold table_size in Hp. destruct (length (array s)) as [| n]; [lia |].
    cbn [probe_loop] in Hp. rewrite Hhome in Hp. congruence. }
  destruct (Hnew Hhome) as [Hinit Hcount].
  apply lp_init_inv in Hinit as (n & _ & _ & ->).
  destruct (lp_store_inv _ _ _ _ Hst) as (h2 & p2 & slot2 & Hh2 & Hp2 & Hs2 & Ha & Hc2 & _).
  cbn [lp_array lp_count] in *.
  assert (slot2 = None) as -> by (apply lookup_replicate in Hs2 as [-> _]; reflexivity).
  assert (Hsize : table_size s1 = table_size s).
  { unfold table_size. rewrite Harr. apply length_insert. }
  assert (Hs1 : array s1 !! h = Some (Some (key1, t1))).
  { rewrite Harr. apply list_lookup_insert_eq. exact Hlt. }
  assert (Hlp : _linear_probe s1 key1 key2 false = (s1, Ok (h, p2))).
  { unfold _linear_probe, hash1. rewrite Hsize. fold (hash1 s key1). rewrite Hh.
    cbn [mbind result_bind bind]. rewrite Harr.
    rewrite (probe_loop_after_store _ _ _ _ _ _ Hp) by (unfold table_size; lia).
    rewrite <- Harr, Hs1. unfold probe_inner.
    rewrite (hash2_length key2 t1 (mkLPT (internal_sizes s) 0 (ArrayR (Z.to_nat n)) 0))
      by (rewrite Ha; apply length_insert).
    rewrite Hh2. cbn [mbind result_bind bind]. rewrite Ha, length_insert.
    rewrite (probe_loop_after_store _ _ _ _ _ _ Hp2)
      by (apply lookup_lt_Some in Hs2; lia).
    reflexivity. }
  unfold __delitem__. rewrite Hlp, Hs1.
  replace (lp_count t1 =? 1)%Z with true by (rewrite Hc2; reflexivity).
  assert (Hback : add_count (with_slot s1 h None) (-1) = s).
  { destruct s as [ts ins si arr c]; destruct s1 as [ts1 ins1 si1 arr1 c1].
    cbn [TABLE_SIZES internal_sizes size_index array count] in *.
    unfold add_count, with_slot, with_array.
    cbn [TABLE_SIZES internal_sizes size_index array count].
    subst. f_equal; [| lia].
    rewrite list_insert_insert_eq. apply list_insert_id. exact Hhome. }
  rewrite Hback. destruct fuel' as [| g]; [lia |].
  cbn [del_sweep]. rewrite Hnext. reflexivity.
Qed.


Lemma grows_refl s : grows s s.
Proof. repeat split; auto. Qed.

Lemma grows_trans s1 s2 s3 : grows s1 s2 -> grows s2 s3 -> grows s1 s3.
Proof.
  intros (A1 & B1 & C1 & D1) (A2 & B2 & C2 & D2).
  repeat split; [congruence | congruence | lia | auto].
Qed.

Lemma set_insert_grows fuel s key1 key2 data s1 :
  set_insert fuel s key1 key2 data = (s1, Ok ()) ->
  grows s s1 /\ table_size s1 = table_size s.
Proof.
  unfold set_insert. intros H.
  destruct (_linear_probe s key1 key2 true) as [s0 [[p1 p2] | e |]] eqn:Hprobe;
    try (injection H as _ H; discriminate).
  destruct (linear_probe_insert_inv _ _ _ _ _ _ Hprobe)
    as (h1 & sub_table & _ & _ & Hcase & Hs0 & _).
  rewrite Hs0 in H.
  assert (H0 : TABLE_SIZES s0 = TABLE_SIZES s /\ internal_sizes s0 = internal_sizes s /\
               size_index s0 = size_index s /\ table_size s0 = table_size s).
  { destruct Hcase as [(_ & _ & ->) | (_ & ->)]; repeat split.
    unfold table_size, with_slot, with_array. cbn [array]. apply length_insert. }
  destruct H0 as (Ha & Hb & Hc & Hd).
  assert (Hgoal : forall d t,
    let s' := with_slot (add_count s0 d) p1 (Some (key1, t)) in
    grows s s' /\ table_size s' = table_size s).
  { intros d t s'.
    assert (Hsz : table_size s' = table_size s).
    { unfold s', table_size, with_slot, with_array, add_count. cbn [array].
      rewrite length_insert. exact Hd. }
    split; [| exact Hsz].
    repeat split; cbn; try assumption; [lia |].
    intros (n & Hn & Hcap). exists n. rewrite Hsz. split; [| exact Hcap].
    change (TABLE_SIZES s0 !! size_index s0 = Some n). congruence. }
  destruct (lp_setitem fuel sub_table key2 data) as [t1 | |];
    try (destruct (is_empty sub_table); injection H as _ H; discriminate).
  destruct (is_empty sub_table); injection H as <-.
  - apply (Hgoal 1%Z).
  - replace s0 with (add_count s0 0)
      by (destruct s0; unfold add_count; cbn; f_equal; lia).
    apply (Hgoal 0%Z).
Qed.

Section Rehash.
Variable set : DKT V -> string -> string -> V -> outcome V unit.
Hypothesis set_ok : forall s k1 k2 v s',
  set s k1 k2 v = (s', Ok ()) -> grows s s' /\ at_most_half s'.

Lemma rehash_pairs_grows key1 pairs : forall s s',
  rehash_pairs set key1 pairs s = (s', Ok ()) ->
  grows s s' /\ (at_most_half s -> at_most_half s').
Proof using set_ok.
  induction pairs as [| [[key2 value] |] pairs IH]; intros s s' H; cbn [rehash_pairs] in H.
  - injection H as <-. split; [apply grows_refl | auto].
  - destruct (set s key1 key2 value) as [s1 [[] | e |]] eqn:Hs; try discriminate.
    destruct (set_ok _ _ _ _ _ Hs) as [G1 H1].
    destruct (IH _ _ H) as [G2 H2].
    split; [eapply grows_trans; eassumption | auto].
  - apply IH. exact H.
Qed.

Lemma rehash_slots_grows old_array : forall old_count s s',
  rehash_slots set old_array old_count s = (s', Ok ()) ->
  grows s s' /\ (at_most_half s -> at_most_half s').
Proof using set_ok.
  induction old_array as [| item1 old_array IH]; intros old_count s s' H;
    cbn [rehash_slots] in H.
  - injection H as <-. split; [apply grows_refl | auto].
  - destruct item1 as [[key1 sub_table] |].
    + destruct (rehash_pairs set key1 (lp_array sub_table) s) as [s1 [[] | e |]] eqn:Hp;
        try (injection H as _ H; discriminate).
      destruct (rehash_pairs_grows _ _ _ _ Hp) as [G1 H1].
      destruct (old_count - 1 =? 0)%Z.
      * injection H as <-. split; assumption.
      * destruct (IH _ _ _ H) as [G2 H2].
        split; [eapply grows_trans; eassumption | auto].
    + destruct (old_count =? 0)%Z.
      * injection H as <-. split; [apply grows_refl | auto].
      * apply (IH _ _ _ H).
Qed.

Lemma rehash_with_grows s s' :
  rehash_with set s = (s', Ok ()) ->
  grows s s' /\ at_most_half s' /\ capacity_on_ladder s'.
Proof using set_ok.
  unfold rehash_with. cbn [TABLE_SIZES size_index array count].
  intros H.
  destruct (TABLE_SIZES s !! (size_index s + 1)) as [n |] eqn:Hn;
    [| injection H as _ H; discriminate].
  unfold new_array in H.
  destruct (Z.leb_spec n 0); [injection H as _ H; discriminate |].
  match type of H with rehash_slots _ _ _ ?x = _ => set (s2 := x) in * end.
  destruct (rehash_slots_grows _ _ _ _ H) as [(A & B & C & D) Hhalf].
  assert (Hcap : capacity_on_ladder s2).
  { exists n. split; [exact Hn |]. unfold table_size, s2, ArrayR. cbn [array].
    apply length_replicate. }
  split; [| split; [apply Hhalf; unfold at_most_half, s2; cbn [count]; lia | auto]].
  repeat split; [exact A | exact B | unfold s2 in C; cbn [size_index] in C; lia | auto].
Qed.
End Rehash.

(** What every [__setitem__] that returns keeps, through any number of
    resizes: the two ladders are unchanged, the index into the ladder does
    not go back, a capacity that is on the ladder stays on it, and the
    table is left at most half full. *)
Theorem set_keeps_shape fuel : forall s key1 key2 data s',
  __setitem__ fuel s key1 key2 data = (s', Ok ()) ->
  grows s s' /\ at_most_half s'.
Proof.
  induction fuel as [| fuel IH]; intros s key1 key2 data s' H; [discriminate |].
  cbn [__setitem__] in H.
  destruct (set_insert fuel s key1 key2 data) as [s1 [[] | e |]] eqn:Hins;
    try discriminate.
  destruct (set_insert_grows _ _ _ _ _ _ Hins) as [G1 Hsz].
  destruct (over_half s1) eqn:Hover.
  - destruct (rehash_with_grows _ IH _ _ H) as (G2 & Hh & _).
    split; [eapply grows_trans; eassumption | exact Hh].
  - injection H as <-. split; [exact G1 |].
    unfold over_half, __len__ in Hover. apply Z.ltb_ge in Hover. exact Hover.
Qed.
End WithValue.

Lemma has_room_fresh : has_room fresh.
Proof.
  split; [cbn; lia |]. split.
  - intros i k sub_table H. apply lookup_replicate in H as [H _]. discriminate.
  - intros n [= <-]. lia.
Qed.

Lemma hash1_range_witness :
  (forall p, hash1 fresh "cat" = Ok p -> 0 < table_size fresh -> p < table_size fresh) /\
  (table_size (mkDKT [1%Z] [5%Z] 0 (ArrayR 1) 0 : DKT nat) = 1 -> "cat" <> "" ->
   hash1 (mkDKT [1%Z] [5%Z] 0 (ArrayR 1) 0 : DKT nat) "cat" = Raise ZeroDivisionError).
Proof.
  split.
  - exact (proj1 (hash1_range fresh "cat")).
  - exact (proj2 (hash1_range (mkDKT [1%Z] [5%Z] 0 (ArrayR 1) 0) "cat")).
Defined.

Lemma set_then_get_witness :
  has_room fresh /\
  __setitem__ 2 fresh "a" "x" 7 = (after_sets 2 [("a", "x", 7)] fresh, Ok ()) /\
  __getitem__ (after_sets 2 [("a", "x", 7)] fresh) "a" "x" = Ok 7 /\
  __contains__ (after_sets 2 [("a", "x", 7)] fresh) "a" "x" = Ok true /\
  table_size (after_sets 2 [("a", "x", 7)] fresh) = table_size fresh /\
  size_index (after_sets 2 [("a", "x", 7)] fresh) = size_index fresh.
Proof.
  split; [exact has_room_fresh |]. split; [vm_compute; reflexivity |].
  apply (set_then_get 2 fresh "a" "x" 7); [exact has_room_fresh |].
  vm_compute; reflexivity.
Defined.

Lemma set_keeps_others_witness :
  has_room (after_sets 2 [("a", "x", 7)] fresh) /\
  __setitem__ 2 (after_sets 2 [("a", "x", 7)] fresh) "f" "y" 8
    = (after_sets 2 [("a", "x", 7); ("f", "y", 8)] fresh, Ok ()) /\
  ("a", "x") <> ("f", "y") /\
  __getitem__ (after_sets 2 [("a", "x", 7)] fresh) "a" "x" = Ok 7 /\
  __getitem__ (after_sets 2 [("a", "x", 7); ("f", "y", 8)] fresh) "a" "x" = Ok 7.
Proof.
  assert (Hroom : has_room (after_sets 2 [("a", "x", 7)] fresh)).
  { split; [vm_compute; discriminate |]. split.
    - intros i k sub_table H.
      destruct i as [|[|[|[|[| i]]]]]; vm_compute in H; try discriminate.
      injection H as _ <-. vm_compute. discriminate.
    - intros n [= <-]. lia. }
  split; [exact Hroom |]. split; [vm_compute; reflexivity |].
  split; [discriminate |]. split; [vm_compute; reflexivity |].
  apply (set_keeps_others 2 (after_sets 2 [("a", "x", 7)] fresh) "f" "y" 8 _ "a" "x" 7 Hroom);
    [vm_compute; reflexivity | discriminate | vm_compute; reflexivity].
Defined.

Lemma missing_first_key_witness :
  hash1 fresh "a" = Ok 2 /\ array fresh !! 2 = Some None /\
  __getitem__ fresh "a" "x" = Raise KeyError /\
  __contains__ fresh "a" "x" = Ok false /\
  keys fresh (Some "a") = Raise KeyError /\
  values fresh (Some "a") = Raise KeyError /\
  __delitem__ 5 fresh "a" "x" = (fresh, Raise KeyError).
Proof.
  split; [reflexivity |]. split; [reflexivity |].
  apply (missing_first_key 5 fresh "a" "x" 2); reflexivity.
Defined.

Lemma set_then_listed_witness :
  has_room fresh /\
  __setitem__ 2 fresh "a" "x" 7 = (after_sets 2 [("a", "x", 7)] fresh, Ok ()) /\
  (exists l, keys (after_sets 2 [("a", "x", 7)] fresh) None = Ok l /\ "a" ∈ l) /\
  (exists l, keys (after_sets 2 [("a", "x", 7)] fresh) (Some "a") = Ok l /\ "x" ∈ l) /\
  (exists l, values (after_sets 2 [("a", "x", 7)] fresh) (Some "a") = Ok l /\ 7 ∈ l) /\
  (exists l, values (after_sets 2 [("a", "x", 7)] fresh) None = Ok l /\ 7 ∈ l).
Proof.
  split; [exact has_room_fresh |]. split; [vm_compute; reflexivity |].
  apply (set_then_listed 2 fresh "a" "x" 7); [exact has_room_fresh |].
  vm_compute; reflexivity.
Defined.

Lemma set_then_delete_witness :
  has_room fresh /\ hash1 fresh "a" = Ok 2 /\ array fresh !! 2 = Some None /\
  array fresh !! ((2 + 1) mod table_size fresh) = Some None /\
  __setitem__ 2 fresh "a" "x" 7 = (after_sets 2 [("a", "x", 7)] fresh, Ok ()) /\
  1 <= 1 /\
  __delitem__ 1 (after_sets 2 [("a", "x", 7)] fresh) "a" "x" = (fresh, Ok ()).
Proof.
  split; [exact has_room_fresh |]. split; [reflexivity |]. split; [reflexivity |].
  split; [reflexivity |]. split; [vm_compute; reflexivity |]. split; [lia |].
  apply (set_then_delete 2 1 fresh "a" "x" 7 _ 2);
    [exact has_room_fresh | reflexivity | reflexivity | reflexivity
    | vm_compute; reflexivity | lia].
Defined.



Lemma set_keeps_shape_witness :
  __setitem__ 3 (after_sets 3 [("a", "x", 1); ("b", "x", 2)] fresh) "c" "x" 3
    = (after_sets 3 [("a", "x", 1); ("b", "x", 2); ("c", "x", 3)] fresh, Ok ()) /\
  grows (after_sets 3 [("a", "x", 1); ("b", "x", 2)] fresh)
        (after_sets 3 [("a", "x", 1); ("b", "x", 2); ("c", "x", 3)] fresh) /\
  at_most_half (after_sets 3 [("a", "x", 1); ("b", "x", 2); ("c", "x", 3)] fresh).
Proof.
  split; [vm_compute; reflexivity |].
  apply (set_keeps_shape 3 (after_sets 3 [("a", "x", 1); ("b", "x", 2)] fresh) "c" "x" 3).
  vm_compute; reflexivity.
Defined.
End TableMore.
